(** * 4anime.gg data collector: episode-range harvesting pipeline

    Shallow embedding of [4anime_gg.py]: the asynchronous extractor
    ([AnimeExtractor]), the thread-pool variant ([fast_sync_version]) and the
    TMDB enrichment they share.  Network peers, the JSON decoder and the HTML
    parser are external collaborators; they appear as fields of an
    environment record and every theorem quantifies over them. *)

From Stdlib Require Import ZArith List String Ascii Bool Lia Permutation.
From Stdlib Require Import DecimalString DecimalPos DecimalZ.
Import ListNotations.

Local Open Scope string_scope.
Local Open Scope list_scope.
Local Open Scope Z_scope.

(* ================================================================== *)
(** ** Python string primitives used by the program

    Strings are byte strings restricted to ASCII: the whitespace, digit and
    letter classes below are the ASCII part of Python's Unicode classes. *)

Module PyStr.

(** [str.isspace] on ASCII: TAB..CR, FS..US and the space. *)
Definition is_space (c : ascii) : bool :=
  let n := nat_of_ascii c in
  ((9 <=? n) && (n <=? 13) || (28 <=? n) && (n <=? 32))%nat.

Definition is_digit (c : ascii) : bool :=
  let n := nat_of_ascii c in ((48 <=? n) && (n <=? 57))%nat.

Definition digit_val (c : ascii) : Z := Z.of_nat (nat_of_ascii c) - 48.

Definition is_upper (c : ascii) : bool :=
  let n := nat_of_ascii c in ((65 <=? n) && (n <=? 90))%nat.

Definition is_lower (c : ascii) : bool :=
  let n := nat_of_ascii c in ((97 <=? n) && (n <=? 122))%nat.

Definition is_cased (c : ascii) : bool := is_upper c || is_lower c.

Definition to_upper (c : ascii) : ascii :=
  if is_lower c then ascii_of_nat (nat_of_ascii c - 32) else c.

Definition to_lower (c : ascii) : ascii :=
  if is_upper c then ascii_of_nat (nat_of_ascii c + 32) else c.

(** Truthiness of a [str]. *)
Definition nonempty (s : string) : bool :=
  match s with EmptyString => false | String _ _ => true end.

Fixpoint lstrip (s : string) : string :=
  match s with
  | String c r => if is_space c then lstrip r else s
  | EmptyString => EmptyString
  end.

Definition rev_string (s : string) : string :=
  string_of_list_ascii (rev (list_ascii_of_string s)).

Definition rstrip (s : string) : string := rev_string (lstrip (rev_string s)).

(** [s.strip()] *)
Definition strip (s : string) : string := rstrip (lstrip s).

(** [s.replace('-', ' ')] *)
Fixpoint replace_dash (s : string) : string :=
  match s with
  | String c r => String (if Ascii.eqb c "-" then " "%char else c) (replace_dash r)
  | EmptyString => EmptyString
  end.

(** [s.title()]: a cased character is upper-cased when the previous character
    is not cased and lower-cased otherwise. *)
Fixpoint title_from (previous_is_cased : bool) (s : string) : string :=
  match s with
  | String c r =>
      String (if previous_is_cased then to_lower c else to_upper c)
             (title_from (is_cased c) r)
  | EmptyString => EmptyString
  end.

Definition title (s : string) : string := title_from false s.

(** [s.split('-')[0]] *)
Fixpoint split_dash_head (s : string) : string :=
  match s with
  | String c r => if Ascii.eqb c "-" then EmptyString else String c (split_dash_head r)
  | EmptyString => EmptyString
  end.

(** Digits of a decimal literal after the first one; single underscores are
    allowed between digits. *)
Fixpoint int_digits (acc : Z) (after_underscore : bool) (s : string) : option Z :=
  match s with
  | EmptyString => if after_underscore then None else Some acc
  | String c r =>
      if is_digit c then int_digits (10 * acc + digit_val c) false r
      else if Ascii.eqb c "_" then
             if after_underscore then None else int_digits acc true r
           else None
  end.

Definition int_unsigned (s : string) : option Z :=
  match s with
  | String c _ => if is_digit c then int_digits 0 false s else None
  | EmptyString => None
  end.

(** The whitespace [int] skips around an ASCII literal: TAB..CR and the
    space, which is narrower than the class of [str.strip]. *)
Definition is_int_space (c : ascii) : bool :=
  let n := nat_of_ascii c in
  ((9 <=? n) && (n <=? 13) || (n =? 32))%nat.

Fixpoint int_lstrip (s : string) : string :=
  match s with
  | String c r => if is_int_space c then int_lstrip r else s
  | EmptyString => EmptyString
  end.

Definition int_strip (s : string) : string :=
  rev_string (int_lstrip (rev_string (int_lstrip s))).

(** [int(s)] for a [str] argument in base 10; [None] stands for
    [ValueError].  Surrounding whitespace is ignored, one sign is allowed,
    and single underscores may separate digits.  The interpreter's
    configurable ceiling on the number of digits is not modelled. *)
Definition int (s : string) : option Z :=
  match int_strip s with
  | String "-" r => option_map Z.opp (int_unsigned r)
  | String "+" r => int_unsigned r
  | t => int_unsigned t
  end.

(** [f"{n}"] for an [int]. *)
Definition str_of_int (n : Z) : string := NilZero.string_of_int (Z.to_int n).

(** Longest prefix without a question mark: what [[^?]+] consumes. *)
Fixpoint until_question (s : string) : string :=
  match s with
  | String c r => if Ascii.eqb c "?" then EmptyString else String c (until_question r)
  | EmptyString => EmptyString
  end.

(** [re.search(r'/watch/([^?]+)', href)] followed by [match.group(1)]:
    the leftmost occurrence of the marker that is followed by at least one
    character other than a question mark. *)
Fixpoint search_watch (href : string) : option string :=
  match href with
  | EmptyString => None
  | String _ r =>
      let here :=
        if prefix "/watch/" href
        then until_question (substring 7 (String.length href - 7) href)
        else EmptyString in
      if nonempty here then Some here else search_watch r
  end.

(** Reversed view of the pattern [-\d+\?] anchored at the end: the argument
    is the reversed subject; the result is the reversed remainder. *)
Fixpoint drop_digits (s : list ascii) : list ascii :=
  match s with
  | c :: r => if is_digit c then drop_digits r else s
  | [] => []
  end.

Definition cut_episode_suffix_rev (r : list ascii) : option (list ascii) :=
  match r with
  | "?"%char :: d :: r' =>
      if is_digit d then
        match drop_digits r' with
        | "-"%char :: rest => Some rest
        | _ => None
        end
      else None
  | _ => None
  end.

(** [re.sub(r'-\d+\?$', '', s)].  The anchor also holds just before a final
    line feed, which is then kept. *)
Definition sub_episode_suffix (s : string) : string :=
  match rev (list_ascii_of_string s) with
  | "010"%char :: r =>
      match cut_episode_suffix_rev r with
      | Some rest => string_of_list_ascii (rev ("010"%char :: rest))
      | None => s
      end
  | r =>
      match cut_episode_suffix_rev r with
      | Some rest => string_of_list_ascii (rev rest)
      | None => s
      end
  end.

End PyStr.

(* ================================================================== *)
(** ** Exceptions and stateful computations

    A computation threads one piece of mutable state (the list
    [error_urls], or the log of catalog queries) and either returns a value
    or raises. *)

Inductive PyExn : Type :=
| ValueError | KeyError | TypeError | AttributeError
| ClientError | HTTPError | JSONDecodeError | TimeoutError.

Inductive exc (A : Type) : Type :=
| Ret (a : A)
| Raise (e : PyExn).
Arguments Ret {A} a.
Arguments Raise {A} e.

Definition M (S A : Type) : Type := S -> exc A * S.

Definition ret {S A} (a : A) : M S A := fun s => (Ret a, s).

Definition raise {S A} (e : PyExn) : M S A := fun s => (Raise e, s).

Definition bind {S A B} (m : M S A) (k : A -> M S B) : M S B :=
  fun s => match m s with
           | (Ret a, s') => k a s'
           | (Raise e, s') => (Raise e, s')
           end.

(** [try: body  except Exception: handler] *)
Definition try_except {S A} (body : M S A) (handler : PyExn -> M S A) : M S A :=
  fun s => match body s with
           | (Ret a, s') => (Ret a, s')
           | (Raise e, s') => handler e s'
           end.

(** [xs.append(x)] on the list held in the state. *)
Definition append {X} (x : X) : M (list X) unit := fun s => (Ret tt, s ++ [x]).

(** Lifting of a partial primitive: [None] raises [e]. *)
Definition or_raise {S A} (e : PyExn) (o : option A) : M S A :=
  match o with Some a => ret a | None => raise e end.

Notation "x <- m ;; k" := (bind m (fun x => k))
  (at level 61, m at next level, right associativity).
Notation "m ;;; k" := (bind m (fun _ => k))
  (at level 61, right associativity).

(* ================================================================== *)
(** ** Data model *)

(** One [<li class="ep-item">] element: its [data-id] attribute and its
    first [<a>] descendant with that anchor's [href] attribute. *)
Record Anchor : Type := { href : option string }.
Record EpItem : Type := { data_id : option string; first_a : option Anchor }.

(** Decoded body of a listing response.  The [html] member, when present,
    is a string. *)
Inductive Body : Type :=
| NotJson
| JsonNotObject
| JsonObject (html : option string).

Inductive Response : Type :=
| ConnectionFailed
| Reply (status : Z) (body : Body).

(** One element of the catalog's [results] array, as the catalog documents
    it: [id] an integer, [first_air_date] and [name] strings.  [None] says
    that the object has no such member.  Objects whose members hold a value
    of another JSON type are not described by this record; this includes
    [null], for which the program does not behave as for a missing member
    ([series_data['id']] yields [None] without raising, and
    [series_data.get('name', ...)] yields [None] instead of the default). *)
Record Candidate : Type := {
  cand_id : option Z;
  cand_first_air_date : option string;
  cand_name : option string
}.

Inductive OracleReply : Type :=
| OracleTransportError
| OracleHttpError
| OracleNotJson
| OracleNoResultsKey
| OracleResults (results : list Candidate).

(** The triple returned by the enricher. *)
Record CatalogMatch : Type := {
  cm_tmdb_id : option Z;
  cm_year : option Z;
  cm_title : string
}.

Record SeriesRecord : Type := {
  serial_no : Z;
  name : option string;
  title : string;
  tmdb_id : option Z;
  imdb_id : option Z;
  year : option Z;
  episodes : string;
  episode_offset : Z
}.

(** External collaborators.
    - [http_get url]: what the listing endpoint answers for [url];
    - [find_all_ep_items html]:
      [BeautifulSoup(html, 'html.parser').find_all('li', class_='ep-item')];
    - [tmdb_search api_key query]: what the catalog answers;
    - [result_raises url]: whether retrieving the result of the enrichment
      future submitted for [url] raises (pool-level timeout or failure);
    - [finish_time url]: completion instant of that future;
    - [json_content_type url]: whether the answer to [url] declares a
      media type that [aiohttp]'s [json()] accepts ([application/json]);
    - [arrival_time url]: instant at which the answer to [url] has arrived
      and the fetch of [url] reaches its verdict. *)
Record Env : Type := {
  http_get : string -> Response;
  find_all_ep_items : string -> list EpItem;
  tmdb_search : string -> string -> OracleReply;
  result_raises : string -> bool;
  finish_time : string -> nat;
  json_content_type : string -> bool;
  arrival_time : string -> nat
}.

(** Truthiness of the optional values the program tests. *)
Definition truthy_str (s : option string) : bool :=
  match s with Some t => PyStr.nonempty t | None => false end.

Definition truthy_int (n : option Z) : bool :=
  match n with Some z => negb (z =? 0) | None => false end.

(* ================================================================== *)
(** ** Catalog enrichment ([get_tmdb_info_sync])

    The state of these computations is the log of queries sent to the
    catalog. *)

Definition unknown_anime : CatalogMatch :=
  {| cm_tmdb_id := None; cm_year := None; cm_title := "Unknown Anime" |}.

(** The normalisation of lines 112-113. *)
Definition clean (anime_name : string) : string :=
  PyStr.strip (PyStr.replace_dash (PyStr.sub_episode_suffix anime_name)).

(** [requests.get(search_url, params=params, timeout=10)], then
    [raise_for_status()], [json()] and [data['results']]. *)
Definition search_results (env : Env) (api_key query : string)
  : M (list string) (list Candidate) :=
  append query ;;;
  match tmdb_search env api_key query with
  | OracleTransportError => raise ClientError
  | OracleHttpError => raise HTTPError
  | OracleNotJson => raise JSONDecodeError
  | OracleNoResultsKey => raise KeyError
  | OracleResults results => ret results
  end.

(** The body of the [try] block once the first candidate is selected. *)
Definition match_of_candidate (series_data : Candidate) (clean_name : string)
  : M (list string) CatalogMatch :=
  tmdb_id <- or_raise KeyError (cand_id series_data) ;;
  year <- match cand_first_air_date series_data with
          | Some d =>
              if PyStr.nonempty d
              then y <- or_raise ValueError (PyStr.int (PyStr.split_dash_head d)) ;;
                   ret (Some y)
              else ret None
          | None => ret None
          end ;;
  ret {| cm_tmdb_id := Some tmdb_id;
         cm_year := year;
         cm_title := match cand_name series_data with
                     | Some n => n
                     | None => PyStr.title clean_name
                     end |}.

Definition degraded (clean_name : string) : CatalogMatch :=
  {| cm_tmdb_id := None; cm_year := None; cm_title := PyStr.title clean_name |}.

Definition tmdb_lookup (env : Env) (api_key : string) (anime_name : option string)
  : M (list string) CatalogMatch :=
  match anime_name with
  | None => ret unknown_anime
  | Some nm =>
      if negb (PyStr.nonempty nm) then ret unknown_anime
      else
        let clean_name := clean nm in
        try_except
          (results <- search_results env api_key clean_name ;;
           match results with
           | series_data :: _ => match_of_candidate series_data clean_name
           | [] => ret (degraded clean_name)
           end)
          (fun _ => ret (degraded clean_name))
  end.

(** Module-level [get_tmdb_info_sync(anime_name, api_key)], lines 379-410. *)
Definition get_tmdb_info_sync (env : Env) (anime_name : option string) (api_key : string)
  : M (list string) CatalogMatch :=
  tmdb_lookup env api_key anime_name.

(* ================================================================== *)
(** ** Range inference

    The three blocks below occur verbatim in both fetchers (lines 68-98 and
    276-303). *)

(** The loop collecting [episode_numbers]: items without a [data-id], with
    an empty one, or with one that [int] rejects are skipped. *)
Fixpoint episode_numbers_of (ep_items : list EpItem) : list Z :=
  match ep_items with
  | [] => []
  | item :: rest =>
      match data_id item with
      | Some d =>
          if PyStr.nonempty d then
            match PyStr.int d with
            | Some n => n :: episode_numbers_of rest
            | None => episode_numbers_of rest
            end
          else episode_numbers_of rest
      | None => episode_numbers_of rest
      end
  end.

(** [min(xs)] and [max(xs)]; [None] stands for the [ValueError] raised on
    an empty list. *)
Definition py_min (xs : list Z) : option Z :=
  match xs with [] => None | x :: r => Some (fold_left Z.min r x) end.

Definition py_max (xs : list Z) : option Z :=
  match xs with [] => None | x :: r => Some (fold_left Z.max r x) end.

(** Lines 82-89: the single-episode case and the general case. *)
Definition first_last {S} (episode_numbers : list Z) : M S (Z * Z) :=
  match episode_numbers with
  | [n] => ret (n, n)
  | _ =>
      first_ep <- or_raise ValueError (py_min episode_numbers) ;;
      last_ep <- or_raise ValueError (py_max episode_numbers) ;;
      ret (first_ep, last_ep)
  end.

(** Lines 92-98: the name token read from the first item's anchor. *)
Definition anime_name_of (ep_items : list EpItem) : option string :=
  match ep_items with
  | item0 :: _ =>
      match first_a item0 with
      | Some first_ep_link =>
          match href first_ep_link with
          | Some h =>
              if PyStr.nonempty h then
                match PyStr.search_watch h with
                | Some group1 => Some (String.append group1 "?")
                | None => None
                end
              else None
          | None => None
          end
      | None => None
      end
  | [] => None
  end.

(** [data = response.json()], then [data.get] of the [html] member with the
    empty string as default. *)
Definition json_html {S} (body : Body) : M S string :=
  match body with
  | NotJson => raise JSONDecodeError
  | JsonNotObject => raise AttributeError
  | JsonObject None => ret EmptyString
  | JsonObject (Some h) => ret h
  end.

(** aiohttp's [await response.json()] followed by [data.get]: the decoder
    first refuses an answer whose declared media type is not JSON
    ([ContentTypeError], a client error).  The decoder of [requests] has no
    such test and is [json_html] itself. *)
Definition aiohttp_json_html {S} (env : Env) (url : string) (body : Body) : M S string :=
  if json_content_type env url then json_html body else raise ClientError.

(** Opening the connection: both HTTP clients raise on a transport
    failure. *)
Definition request {S} (env : Env) (url : string) : M S (Z * Body) :=
  match http_get env url with
  | ConnectionFailed => raise ClientError
  | Reply status body => ret (status, body)
  end.

(** [executor.submit(job)] and the later retrieval of its result: the value
    a future delivers.  The job starts from an empty query log.  A future is
    identified by the URL of the item it was submitted for. *)
Definition submit (env : Env) (url : string) (job : M (list string) CatalogMatch)
  : exc CatalogMatch :=
  if result_raises env url then Raise TimeoutError else fst (job []).

(** Lines 175-178 and 339-342. *)
Definition episodes_str (first_ep last_ep : Z) : string :=
  if first_ep =? last_ep then PyStr.str_of_int first_ep
  else String.append (PyStr.str_of_int first_ep)
                     (String.append "-" (PyStr.str_of_int last_ep)).

(** Lines 180-189 and 344-353. *)
Definition series_entry (successful_data : list SeriesRecord)
    (first_ep last_ep : Z) (anime_name : option string) (m : CatalogMatch)
  : SeriesRecord :=
  {| serial_no := Z.of_nat (List.length successful_data) + 1;
     name := anime_name;
     title := cm_title m;
     tmdb_id := cm_tmdb_id m;
     imdb_id := None;
     year := cm_year m;
     episodes := episodes_str first_ep last_ep;
     episode_offset := first_ep - 1 |}.

(* ================================================================== *)
(** ** Concurrent execution

    Coroutines under [asyncio.gather] and calls under
    [ThreadPoolExecutor.map] share one state and touch it when their own
    answer arrives, not in the order of submission.  A task is a pair of
    the instant at which it runs and its computation; tasks run by
    increasing instant (ties by submission), each on the state left by the
    one before, and the results are handed back in submission order. *)

Fixpoint insert_by_time {A} (time : A -> nat) (x : A) (sorted : list A) : list A :=
  match sorted with
  | [] => [x]
  | y :: rest =>
      if (time x <=? time y)%nat then x :: sorted
      else y :: insert_by_time time x rest
  end.

Definition schedule {A} (time : A -> nat) (xs : list A) : list A :=
  fold_right (insert_by_time time) [] xs.

(** One task of the schedule, tagged with its position of submission. *)
Definition run_timed {S A} (acc : list (nat * exc A) * S) (t : nat * (nat * M S A))
  : list (nat * exc A) * S :=
  let '(done, s) := acc in
  let '(r, s') := snd (snd t) s in
  (done ++ [(fst t, r)], s').

Definition result_at {A} (done : list (nat * exc A)) (i : nat) : list (exc A) :=
  match find (fun d => Nat.eqb (fst d) i) done with
  | Some d => [snd d]
  | None => []
  end.

Definition run_concurrently {S A} (tasks : list (nat * M S A)) : M S (list (exc A)) :=
  fun s =>
    let positions := seq 0 (List.length tasks) in
    let order := schedule (fun t => fst (snd t)) (combine positions tasks) in
    let '(done, s') := fold_left run_timed order ([], s) in
    (Ret (flat_map (result_at done) positions), s').

(** The results of finished calls as a list; the first exception, in
    submission order, propagates. *)
Fixpoint results_or_raise {S B} (results : list (exc B)) : M S (list B) :=
  match results with
  | [] => ret []
  | Ret y :: rest => ys <- results_or_raise rest ;; ret (y :: ys)
  | Raise e :: _ => raise e
  end.

(* ================================================================== *)
(** ** The asynchronous extractor (class [AnimeExtractor])

    The state threaded through these computations is [self.error_urls]. *)

Module AnimeExtractor.

Record Self : Type := { api_key : string; max_workers : Z }.

Definition Fetched : Type := (option Z * option Z * option string)%type.

Definition nothing : Fetched := (None, None, None).

(** Lines 46-105. *)
Definition extract_episodes_and_name (env : Env) (url : string)
  : M (list string) Fetched :=
  try_except
    (response <- request env url ;;
     let '(status, body) := response in
     if negb (status =? 200) then append url ;;; ret nothing
     else
       html_content <- aiohttp_json_html env url body ;;
       if negb (PyStr.nonempty html_content) then append url ;;; ret nothing
       else
         let ep_items := find_all_ep_items env html_content in
         match ep_items with
         | [] => append url ;;; ret nothing
         | _ :: _ =>
             let episode_numbers := episode_numbers_of ep_items in
             match episode_numbers with
             | [] => append url ;;; ret nothing
             | _ :: _ =>
                 range <- first_last episode_numbers ;;
                 let '(first_ep, last_ep) := range in
                 ret (Some first_ep, Some last_ep, anime_name_of ep_items)
             end
         end)
    (fun _ => append url ;;; ret nothing).

(** Lines 107-138. *)
Definition get_tmdb_info_sync (env : Env) (self : Self) (anime_name : option string)
  : M (list string) CatalogMatch :=
  tmdb_lookup env (api_key self) anime_name.

(** [asyncio.gather] with [return_exceptions=True]: every coroutine runs,
    each when its answer arrives; an exception becomes that coroutine's
    result; the results are aligned with the argument list. *)
Definition gather {S A} (tasks : list (nat * M S A)) : M S (list (exc A)) :=
  run_concurrently tasks.

(** Line 149: the coroutine created for [url]. *)
Definition fetch_task (env : Env) (url : string) : nat * M (list string) Fetched :=
  (arrival_time env url, extract_episodes_and_name env url).

(** An entry of [tmdb_tasks]: [(future, first_ep, last_ep, anime_name)]. *)
Definition TmdbTask : Type := (exc CatalogMatch * Z * Z * string)%type.

(** Lines 157-166 for one position [j] of the batch. *)
Definition enqueue (env : Env) (self : Self) (url : string) (result : exc Fetched)
  : list TmdbTask :=
  match result with
  | Raise _ => []
  | Ret (None, _, _) => []
  | Ret (Some first_ep, last_ep, anime_name) =>
      match last_ep, anime_name with
      | Some l, Some nm =>
          if truthy_int (Some first_ep) && truthy_int last_ep && truthy_str anime_name
          then [(submit env url (get_tmdb_info_sync env self (Some nm)),
                 first_ep, l, nm)]
          else []
      | _, _ => []
      end
  end.

Definition tmdb_tasks_of (env : Env) (self : Self)
    (batch_urls : list string) (results : list (exc Fetched)) : list TmdbTask :=
  flat_map (fun jr => enqueue env self (fst jr) (snd jr)) (combine batch_urls results).

(** Lines 169-192 for one entry of [tmdb_tasks]. *)
Definition collect (successful_data : list SeriesRecord) (task : TmdbTask)
  : list SeriesRecord :=
  let '(future, first_ep, last_ep, anime_name) := task in
  match future with
  | Ret m => successful_data ++ [series_entry successful_data first_ep last_ep (Some anime_name) m]
  | Raise _ => successful_data
  end.

(** One iteration of the outer loop, lines 146-195. *)
Definition process_batch (env : Env) (self : Self) (batch_urls : list string)
    (successful_data : list SeriesRecord) : M (list string) (list SeriesRecord) :=
  results <- gather (map (fetch_task env) batch_urls) ;;
  ret (fold_left collect (tmdb_tasks_of env self batch_urls results) successful_data).

(** [range(0, stop, step)]: [None] stands for the [ValueError] of a zero
    step. *)
Definition py_range0 (stop step : Z) : option (list Z) :=
  if step =? 0 then None
  else if step <? 0 then Some []
  else Some (map (fun k => Z.of_nat k * step)
                 (seq 0 (Z.to_nat ((stop + step - 1) / step)))).

(** [xs[i:j]] for [0 <= i <= j]. *)
Definition slice {A} (xs : list A) (i j : Z) : list A :=
  firstn (Z.to_nat (j - i)) (skipn (Z.to_nat i) xs).

Fixpoint for_batches (env : Env) (self : Self) (urls : list string)
    (starts : list Z) (successful_data : list SeriesRecord)
  : M (list string) (list SeriesRecord) :=
  match starts with
  | [] => ret successful_data
  | i :: rest =>
      successful_data' <-
        process_batch env self (slice urls i (i + max_workers self)) successful_data ;;
      for_batches env self urls rest successful_data'
  end.

(** Lines 140-197. *)
Definition process_urls_async (env : Env) (self : Self) (urls : list string)
  : M (list string) (list SeriesRecord) :=
  starts <- or_raise ValueError
              (py_range0 (Z.of_nat (List.length urls)) (max_workers self)) ;;
  for_batches env self urls starts [].

End AnimeExtractor.

(* ================================================================== *)
(** ** The thread-pool variant ([fast_sync_version])

    The state threaded through these computations is the local list
    [error_urls]. *)

Definition Fetched4 : Type := (Z * Z * option string * string)%type.

(** [response.raise_for_status()] *)
Definition raise_for_status {S} (status : Z) : M S unit :=
  if (400 <=? status) && (status <? 600) then raise HTTPError else ret tt.

(** Lines 258-309. *)
Definition process_single_url (env : Env) (url : string)
  : M (list string) (option Fetched4) :=
  try_except
    (response <- request env url ;;
     let '(status, body) := response in
     raise_for_status status ;;;
     html_content <- json_html body ;;
     if negb (PyStr.nonempty html_content) then append url ;;; ret None
     else
       let ep_items := find_all_ep_items env html_content in
       match ep_items with
       | [] => append url ;;; ret None
       | _ :: _ =>
           let episode_numbers := episode_numbers_of ep_items in
           match episode_numbers with
           | [] => append url ;;; ret None
           | _ :: _ =>
               range <- first_last episode_numbers ;;
               let '(first_ep, last_ep) := range in
               ret (Some (first_ep, last_ep, anime_name_of ep_items, url))
           end
       end)
    (fun _ => append url ;;; ret None).

(** [list(executor.map(f, xs))]: every call runs in a worker thread, each
    reaching the shared state at its own instant; the results come in input
    order and the first exception, if any, propagates. *)
Definition executor_map {S A B} (time : A -> nat) (f : A -> M S B) (xs : list A)
  : M S (list B) :=
  results <- run_concurrently (map (fun x => (time x, f x)) xs) ;;
  results_or_raise results.

(** Line 322. *)
Fixpoint valid_results_of (results : list (option Fetched4)) : list Fetched4 :=
  match results with
  | [] => []
  | Some r :: rest => r :: valid_results_of rest
  | None :: rest => valid_results_of rest
  end.

(** An entry of the dictionary [tmdb_tasks]: a future and the tuple stored
    under it. *)
Definition SyncTask : Type := (exc CatalogMatch * Fetched4)%type.

Definition task_url (t : SyncTask) : string := snd (snd t).

(** Lines 327-329. *)
Definition sync_tasks_of (env : Env) (api_key : string)
    (valid_results : list Fetched4) : list SyncTask :=
  map (fun r => let '(first_ep, last_ep, anime_name, url) := r in
                (submit env url (get_tmdb_info_sync env anime_name api_key), r))
      valid_results.

(** [concurrent.futures.as_completed(tmdb_tasks)]: every future once, by
    increasing completion instant. *)
Fixpoint insert_completed (env : Env) (t : SyncTask) (done : list SyncTask)
  : list SyncTask :=
  match done with
  | [] => [t]
  | x :: rest =>
      if (finish_time env (task_url t) <=? finish_time env (task_url x))%nat
      then t :: done
      else x :: insert_completed env t rest
  end.

Definition as_completed (env : Env) (tasks : list SyncTask) : list SyncTask :=
  fold_right (insert_completed env) [] tasks.

(** Lines 333-356 for one completed future; the pair is
    [(successful_data, error_urls)]. *)
Definition sync_collect (acc : list SeriesRecord * list string) (t : SyncTask)
  : list SeriesRecord * list string :=
  let '(successful_data, error_urls) := acc in
  let '(future, (first_ep, last_ep, anime_name, url)) := t in
  match future with
  | Ret m =>
      (successful_data ++ [series_entry successful_data first_ep last_ep anime_name m],
       error_urls)
  | Raise _ => (successful_data, error_urls ++ [url])
  end.

(** Lines 251-356, with the key and the URL list as parameters. *)
Definition fast_sync_version (env : Env) (api_key : string) (anime_urls : list string)
  : M (list string) (list SeriesRecord) :=
  results <- executor_map (arrival_time env) (process_single_url env) anime_urls ;;
  let valid_results := valid_results_of results in
  let tmdb_tasks := sync_tasks_of env api_key valid_results in
  fun error_urls =>
    let '(successful_data, error_urls') :=
      fold_left sync_collect (as_completed env tmdb_tasks) ([], error_urls) in
    (Ret successful_data, error_urls').

(* ================================================================== *)
(** ** Summaries used in the statements

    Pure readings of the computations above; each is linked to the
    computation it summarises by a lemma of the next part. *)

(** What a decoded body yields once the status test has passed. *)
Definition infer (env : Env) (body : Body) : option (Z * Z * option string) :=
  match body with
  | JsonObject (Some h) =>
      if PyStr.nonempty h then
        let ep_items := find_all_ep_items env h in
        match episode_numbers_of ep_items with
        | [] => None
        | n :: rest =>
            Some (fold_left Z.min rest n, fold_left Z.max rest n, anime_name_of ep_items)
        end
      else None
  | _ => None
  end.

Definition fetch_async (env : Env) (url : string) : option (Z * Z * option string) :=
  match http_get env url with
  | Reply status body =>
      if status =? 200 then
        if json_content_type env url then infer env body else None
      else None
  | ConnectionFailed => None
  end.

Definition fetch_sync (env : Env) (url : string) : option (Z * Z * option string) :=
  match http_get env url with
  | Reply status body =>
      if (400 <=? status) && (status <? 600) then None else infer env body
  | ConnectionFailed => None
  end.

(** The data a record is assembled from. *)
Definition Payload : Type := (Z * Z * option string * CatalogMatch)%type.

Definition entry_of (serial : nat) (p : Payload) : SeriesRecord :=
  let '(first_ep, last_ep, anime_name, m) := p in
  {| serial_no := Z.of_nat serial + 1;
     name := anime_name;
     title := cm_title m;
     tmdb_id := cm_tmdb_id m;
     imdb_id := None;
     year := cm_year m;
     episodes := episodes_str first_ep last_ep;
     episode_offset := first_ep - 1 |}.

(** Records for the payloads [ps], in the order of [ps], numbered after
    [k] records already emitted. *)
Fixpoint number_from (k : nat) (ps : list Payload) : list SeriesRecord :=
  match ps with
  | [] => []
  | p :: rest => entry_of k p :: number_from (S k) rest
  end.

(** Elements of [xs] on which [f] is defined, in the order of [xs]. *)
Fixpoint omap {A B} (f : A -> option B) (xs : list A) : list B :=
  match xs with
  | [] => []
  | x :: rest =>
      match f x with
      | Some y => y :: omap f rest
      | None => omap f rest
      end
  end.

(** Payload contributed by [url] in the asynchronous pipeline, if any. *)
Definition async_emit (env : Env) (self : AnimeExtractor.Self) (url : string)
  : option Payload :=
  match fetch_async env url with
  | Some (first_ep, last_ep, Some nm) =>
      if negb (first_ep =? 0) && negb (last_ep =? 0) && PyStr.nonempty nm then
        match submit env url (AnimeExtractor.get_tmdb_info_sync env self (Some nm)) with
        | Ret m => Some (first_ep, last_ep, Some nm, m)
        | Raise _ => None
        end
      else None
  | _ => None
  end.

Definition async_failed (env : Env) (url : string) : bool :=
  match fetch_async env url with Some _ => false | None => true end.

(** Enrichment task created for [url] in the thread-pool pipeline. *)
Definition sync_task (env : Env) (api_key url : string) : option SyncTask :=
  match fetch_sync env url with
  | Some (first_ep, last_ep, anime_name) =>
      Some (submit env url (get_tmdb_info_sync env anime_name api_key),
            (first_ep, last_ep, anime_name, url))
  | None => None
  end.

Definition sync_failed (env : Env) (url : string) : bool :=
  match fetch_sync env url with Some _ => false | None => true end.

Definition sync_payload (t : SyncTask) : option Payload :=
  let '(future, (first_ep, last_ep, anime_name, _)) := t in
  match future with
  | Ret m => Some (first_ep, last_ep, anime_name, m)
  | Raise _ => None
  end.

Definition sync_raised (t : SyncTask) : option string :=
  match fst t with
  | Ret _ => None
  | Raise _ => Some (task_url t)
  end.

(** Agreement of the results of the two fetchers for [url]. *)
Definition same_outcome (url : string)
    (a : exc AnimeExtractor.Fetched * list string)
    (b : exc (option Fetched4) * list string) : Prop :=
  snd a = snd b /\
  match fst a, fst b with
  | Ret (Some f, Some l, nm), Ret (Some (f', l', nm', u)) =>
      f = f' /\ l = l' /\ nm = nm' /\ u = url
  | Ret (None, None, None), Ret None => True
  | _, _ => False
  end.

(** The triple the asynchronous fetcher hands back for a fetch outcome. *)
Definition fetched_of (o : option (Z * Z * option string)) : AnimeExtractor.Fetched :=
  match o with
  | Some (f, l, nm) => (Some f, Some l, nm)
  | None => AnimeExtractor.nothing
  end.

(** The batches the outer loop of [process_urls_async] walks through. *)
Definition batches_of (self : AnimeExtractor.Self) (urls : list string)
    (starts : list Z) : list (list string) :=
  map (fun i => AnimeExtractor.slice urls i (i + AnimeExtractor.max_workers self)) starts.

(** The submitted URLs in the order in which their fetches reach the shared
    list: batch after batch, and within a batch by arrival. *)
Definition async_arrivals (env : Env) (self : AnimeExtractor.Self) (urls : list string)
  : list string :=
  match AnimeExtractor.py_range0 (Z.of_nat (List.length urls))
                                 (AnimeExtractor.max_workers self) with
  | Some starts =>
      List.concat (map (schedule (arrival_time env)) (batches_of self urls starts))
  | None => []
  end.

(* ================================================================== *)
(** ** Concrete environments *)

Definition listing_url (n : Z) : string :=
  String.append "https://4anime.gg/ajax/episode/list/" (PyStr.str_of_int n).

Definition ep_item (d : string) (h : option string) : EpItem :=
  {| data_id := Some d;
     first_a := match h with Some x => Some {| href := Some x |} | None => None end |}.

(** An environment in which every listing request is answered with [status]
    and a JSON object whose [html] member is [markup]; the parser finds
    [items] in [markup] and nothing elsewhere; the catalog answers [oracle]
    to every query; result retrieval raises iff [pool_fails]; the future
    for a URL completes at the instant given by [finish]; every answer
    declares a JSON media type and all answers arrive together. *)
Definition demo_env (status : Z) (markup : string) (items : list EpItem)
    (oracle : OracleReply) (pool_fails : bool) (finish : string -> nat) : Env :=
  {| http_get := fun _ => Reply status (JsonObject (Some markup));
     find_all_ep_items := fun h => if String.eqb h markup then items else [];
     tmdb_search := fun _ _ => oracle;
     result_raises := fun _ => pool_fails;
     finish_time := finish;
     json_content_type := fun _ => true;
     arrival_time := fun _ => 0%nat |}.

Definition demo_self : AnimeExtractor.Self :=
  {| AnimeExtractor.api_key := "key"; AnimeExtractor.max_workers := 30 |}.

Definition no_delay : string -> nat := fun _ => 0%nat.

(** Markup with one episode item and the items the parser reports for it. *)
Definition markup_single : string :=
  "<li class='ep-item' data-id='42'><a href='/watch/some-show-12?ep=42'>42</a></li>".
Definition items_single : list EpItem :=
  [ep_item "42" (Some "/watch/some-show-12?ep=42")].

(** Three items, unsorted. *)
Definition markup_three : string :=
  "<li class='ep-item' data-id='5'><a href='/watch/some-show?ep=5'>5</a></li><li class='ep-item' data-id='3'></li><li class='ep-item' data-id='7'></li>".
Definition items_three : list EpItem :=
  [ep_item "5" (Some "/watch/some-show?ep=5"); ep_item "3" None; ep_item "7" None].

(** Two items carrying the same identifier. *)
Definition markup_twice : string :=
  "<li class='ep-item' data-id='5'><a href='/watch/some-show?ep=5'>5</a></li><li class='ep-item' data-id='5'></li>".
Definition items_twice : list EpItem :=
  [ep_item "5" (Some "/watch/some-show?ep=5"); ep_item "5" None].

(** One item without an anchor. *)
Definition markup_no_link : string :=
  "<li class='ep-item' data-id='5'>5</li>".
Definition items_no_link : list EpItem := [ep_item "5" None].

(** One item whose identifier is negative. *)
Definition markup_negative : string :=
  "<li class='ep-item' data-id='-3'><a href='/watch/some-show?ep=1'>1</a></li>".
Definition items_negative : list EpItem :=
  [ep_item "-3" (Some "/watch/some-show?ep=1")].

(** One item whose identifier is zero. *)
Definition markup_zero : string :=
  "<li class='ep-item' data-id='0'><a href='/watch/some-show?ep=0'>0</a></li>".
Definition items_zero : list EpItem :=
  [ep_item "0" (Some "/watch/some-show?ep=0")].

(** Two listings, served under two URLs, whose enrichment futures complete
    in the order opposite to their submission. *)
Definition markup_alpha : string :=
  "<li class='ep-item' data-id='1'><a href='/watch/alpha?ep=1'>1</a></li>".
Definition markup_beta : string :=
  "<li class='ep-item' data-id='2'><a href='/watch/beta?ep=2'>2</a></li>".

Definition two_listings_env : Env :=
  {| http_get := fun url =>
       if String.eqb url (listing_url 1) then Reply 200 (JsonObject (Some markup_alpha))
       else if String.eqb url (listing_url 2) then Reply 200 (JsonObject (Some markup_beta))
       else Reply 404 NotJson;
     find_all_ep_items := fun h =>
       if String.eqb h markup_alpha then [ep_item "1" (Some "/watch/alpha?ep=1")]
       else if String.eqb h markup_beta then [ep_item "2" (Some "/watch/beta?ep=2")]
       else [];
     tmdb_search := fun _ _ => OracleResults [];
     result_raises := fun _ => false;
     finish_time := fun url => if String.eqb url (listing_url 1) then 2%nat else 1%nat;
     json_content_type := fun _ => true;
     arrival_time := fun _ => 0%nat |}.

(** Every request is refused with status 404, and the answer to a URL
    arrives the earlier the longer the URL is. *)
Definition refusing_env : Env :=
  {| http_get := fun _ => Reply 404 NotJson;
     find_all_ep_items := fun _ => [];
     tmdb_search := fun _ _ => OracleResults [];
     result_raises := fun _ => false;
     finish_time := fun _ => 0%nat;
     json_content_type := fun _ => true;
     arrival_time := fun url => (100 - String.length url)%nat |}.

(** A well-formed listing served with status 200 as [text/html]. *)
Definition mistyped_env : Env :=
  {| http_get := fun _ => Reply 200 (JsonObject (Some markup_single));
     find_all_ep_items := fun h => if String.eqb h markup_single then items_single else [];
     tmdb_search := fun _ _ => OracleResults [];
     result_raises := fun _ => false;
     finish_time := fun _ => 0%nat;
     json_content_type := fun _ => false;
     arrival_time := fun _ => 0%nat |}.

(** ** Predicates of the statements *)

(** The two derived fields of a record agree with the range [f..l]. *)
Definition record_matches_range (r : SeriesRecord) (f l : Z) : Prop :=
  episode_offset r = f - 1 /\
  (f = l -> episodes r = PyStr.str_of_int f) /\
  (f <> l ->
   f < l /\
   episodes r = String.append (PyStr.str_of_int f)
                              (String.append "-" (PyStr.str_of_int l))).

(* ================================================================== *)
(** ** The entry points and their helpers

    State of the file system after a run: for each of the two artefacts,
    [None] when the run does not write it and otherwise what is written.
    The JSON text itself is left to [json.dump]; the artefact is the list
    handed to it.  Printed lines are not modelled. *)





(** [range(lo, hi)] *)
Definition py_range (lo hi : Z) : list Z :=
  map (fun k => lo + Z.of_nat k) (seq 0 (Z.to_nat (hi - lo))).

(** The comprehension of lines 204 and 254. *)
Definition listing_urls (lo hi : Z) : list string := map listing_url (py_range lo hi).




(** ['-' in s] *)
Fixpoint contains_dash (s : string) : bool :=
  match s with
  | EmptyString => false
  | String c r => Ascii.eqb c "-" || contains_dash r
  end.

(** Lines 231-232 and 373-374. *)
Definition single_episodes (series_data : list SeriesRecord) : list SeriesRecord :=
  filter (fun s => negb (contains_dash (episodes s))) series_data.

Definition multiple_episodes (series_data : list SeriesRecord) : list SeriesRecord :=
  filter (fun s => contains_dash (episodes s)) series_data.

(** The loop of lines 426-430: no handler around [int], so the first
    identifier it rejects ends the loop with [ValueError] ([None]). *)
Fixpoint episode_numbers_strict (ep_items : list EpItem) : option (list Z) :=
  match ep_items with
  | [] => Some []
  | item :: rest =>
      match data_id item with
      | Some d =>
          if PyStr.nonempty d then
            match PyStr.int d with
            | Some n => option_map (cons n) (episode_numbers_strict rest)
            | None => None
            end
          else episode_numbers_strict rest
      | None => episode_numbers_strict rest
      end
  end.

(** The helper [extract_single_episode] of [test_single_episode], lines
    417-443.  It has no state of its own. *)
Definition extract_single_episode (env : Env) (url : string)
  : M unit (option Z * option Z) :=
  try_except
    (response <- request env url ;;
     let '(_, body) := response in
     html_content <- json_html body ;;
     let ep_items := find_all_ep_items env html_content in
     episode_numbers <- or_raise ValueError (episode_numbers_strict ep_items) ;;
     match episode_numbers with
     | [n] => ret (Some n, Some n)
     | _ => ret (None, None)
     end)
    (fun _ => ret (None, None)).

(** Lines 445-447: whether the success line is printed. *)
Definition test_single_episode (env : Env) : bool :=
  match fst (extract_single_episode env (listing_url 10) tt) with
  | Ret (first_ep, last_ep) => truthy_int first_ep && truthy_int last_ep
  | Raise _ => false
  end.

(** One item whose identifier is not a number. *)
Definition markup_not_numeric : string :=
  "<li class='ep-item' data-id='n/a'>special</li>".
Definition items_not_numeric : list EpItem := [ep_item "n/a" None].

(** ** Further predicates of the statements *)

(** All characters of [s] satisfy [p]. *)
Fixpoint all_chars (p : ascii -> bool) (s : string) : bool :=
  match s with
  | EmptyString => true
  | String c r => p c && all_chars p r
  end.

(** First and last character of a string. *)
Definition first_char (s : string) : option ascii :=
  match s with EmptyString => None | String c _ => Some c end.

Definition last_char (s : string) : option ascii := first_char (PyStr.rev_string s).

Definition not_space (c : option ascii) : Prop :=
  match c with Some a => PyStr.is_space a = false | None => True end.

(* ================================================================== *)
(** * Properties *)

(** ** The string primitives on sample inputs *)

Example int_plain : PyStr.int "42" = Some 42. Proof. reflexivity. Qed.
Example int_negative : PyStr.int " -3 " = Some (-3). Proof. reflexivity. Qed.
Example int_underscore : PyStr.int "1_000" = Some 1000. Proof. reflexivity. Qed.
Example int_rejects : PyStr.int "12a" = None. Proof. reflexivity. Qed.
Example int_rejects_empty : PyStr.int "" = None. Proof. reflexivity. Qed.
Example str_of_int_neg : PyStr.str_of_int (-3) = "-3". Proof. reflexivity. Qed.
Example str_of_int_zero : PyStr.str_of_int 0 = "0". Proof. reflexivity. Qed.
Example title_words : PyStr.title "one piece 2nd" = "One Piece 2Nd". Proof. reflexivity. Qed.
Example search_watch_ok :
  PyStr.search_watch "https://4anime.gg/watch/some-show-12?ep=3" = Some "some-show-12".
Proof. reflexivity. Qed.
Example search_watch_skips :
  PyStr.search_watch "/watch/?x/watch/b" = Some "b".
Proof. reflexivity. Qed.
Example sub_suffix_ok : PyStr.sub_episode_suffix "some-show-12?" = "some-show".
Proof. reflexivity. Qed.
Example sub_suffix_keep : PyStr.sub_episode_suffix "some-show?" = "some-show?".
Proof. reflexivity. Qed.

(** ** The fetchers, read as pure functions *)

Ltac run_m :=
  unfold bind, ret, raise, append, or_raise, try_except in *; simpl in *.

Lemma fold_min_le (r : list Z) : forall x, fold_left Z.min r x <= x.
Proof.
  induction r as [|y r IH]; intros x; simpl; [lia|].
  specialize (IH (Z.min x y)). lia.
Qed.

Lemma fold_max_ge (r : list Z) : forall x, x <= fold_left Z.max r x.
Proof.
  induction r as [|y r IH]; intros x; simpl; [lia|].
  specialize (IH (Z.max x y)). lia.
Qed.

Lemma fold_min_lower (r : list Z) :
  forall x n, In n (x :: r) -> fold_left Z.min r x <= n.
Proof.
  induction r as [|y r IH]; intros x n Hin; simpl in *.
  - destruct Hin as [<-|[]]. lia.
  - destruct Hin as [<-|[<-|Hin]].
    + pose proof (fold_min_le r (Z.min x y)). lia.
    + pose proof (fold_min_le r (Z.min x y)). lia.
    + apply IH. now right.
Qed.

Lemma fold_max_upper (r : list Z) :
  forall x n, In n (x :: r) -> n <= fold_left Z.max r x.
Proof.
  induction r as [|y r IH]; intros x n Hin; simpl in *.
  - destruct Hin as [<-|[]]. lia.
  - destruct Hin as [<-|[<-|Hin]].
    + pose proof (fold_max_ge r (Z.max x y)). lia.
    + pose proof (fold_max_ge r (Z.max x y)). lia.
    + apply IH. now right.
Qed.

(** On a non-empty list the two branches of [first_last] agree with the
    plain minimum and maximum, and nothing is raised. *)
Lemma first_last_cons {S} (n : Z) (rest : list Z) (s : S) :
  first_last (n :: rest) s = (Ret (fold_left Z.min rest n, fold_left Z.max rest n), s).
Proof. destruct rest; reflexivity. Qed.

Lemma first_last_nil {S} (s : S) : first_last [] s = (Raise ValueError, s).
Proof. reflexivity. Qed.

Lemma episode_numbers_nil_items : episode_numbers_of [] = [].
Proof. reflexivity. Qed.

(** The asynchronous fetcher returns without raising; it either delivers
    the inferred triple and leaves [error_urls] alone, or delivers the empty
    triple and appends the URL once. *)
Lemma extract_episodes_and_name_spec (env : Env) (url : string) (errs : list string) :
  AnimeExtractor.extract_episodes_and_name env url errs =
  match fetch_async env url with
  | Some (f, l, nm) => (Ret (Some f, Some l, nm), errs)
  | None => (Ret AnimeExtractor.nothing, errs ++ [url])
  end.
Proof.
  unfold AnimeExtractor.extract_episodes_and_name, fetch_async, request,
    aiohttp_json_html, json_html, infer.
  unfold try_except, bind at 1.
  destruct (http_get env url) as [|status body]; [reflexivity|].
  simpl. destruct (status =? 200); [|reflexivity]. simpl.
  destruct (json_content_type env url); [|reflexivity].
  destruct body as [| |[h|]]; try reflexivity.
  unfold bind at 1. simpl.
  destruct (PyStr.nonempty h); [|reflexivity]. simpl.
  destruct (find_all_ep_items env h) as [|i0 items] eqn:Hitems; [reflexivity|].
  destruct (episode_numbers_of (i0 :: items)) as [|n rest] eqn:Hnums; [reflexivity|].
  unfold bind. rewrite first_last_cons. reflexivity.
Qed.

(** The same reading of the thread-pool fetcher. *)
Lemma process_single_url_spec (env : Env) (url : string) (errs : list string) :
  process_single_url env url errs =
  match fetch_sync env url with
  | Some (f, l, nm) => (Ret (Some (f, l, nm, url)), errs)
  | None => (Ret None, errs ++ [url])
  end.
Proof.
  unfold process_single_url, fetch_sync, request, json_html, infer, raise_for_status.
  unfold try_except, bind at 1.
  destruct (http_get env url) as [|status body]; [reflexivity|].
  simpl. unfold bind at 1.
  destruct ((400 <=? status) && (status <? 600)); [reflexivity|]. simpl.
  destruct body as [| |[h|]]; try reflexivity.
  unfold bind at 1. simpl.
  destruct (PyStr.nonempty h); [|reflexivity]. simpl.
  destruct (find_all_ep_items env h) as [|i0 items] eqn:Hitems; [reflexivity|].
  destruct (episode_numbers_of (i0 :: items)) as [|n rest] eqn:Hnums; [reflexivity|].
  unfold bind. rewrite first_last_cons. reflexivity.
Qed.

(** ** The enricher never raises *)

Lemma match_of_candidate_cases (c : Candidate) (clean_name : string) (log : list string) :
  match_of_candidate c clean_name log =
  match cand_id c with
  | None => (Raise KeyError, log)
  | Some i =>
      let t := match cand_name c with Some n => n | None => PyStr.title clean_name end in
      match cand_first_air_date c with
      | Some d =>
          if PyStr.nonempty d then
            match PyStr.int (PyStr.split_dash_head d) with
            | Some y => (Ret {| cm_tmdb_id := Some i; cm_year := Some y; cm_title := t |}, log)
            | None => (Raise ValueError, log)
            end
          else (Ret {| cm_tmdb_id := Some i; cm_year := None; cm_title := t |}, log)
      | None => (Ret {| cm_tmdb_id := Some i; cm_year := None; cm_title := t |}, log)
      end
  end.
Proof.
  unfold match_of_candidate. run_m.
  destruct (cand_id c); [|reflexivity].
  destruct (cand_first_air_date c) as [d|]; [|reflexivity].
  destruct (PyStr.nonempty d); [|reflexivity].
  destruct (PyStr.int (PyStr.split_dash_head d)); reflexivity.
Qed.

(** The lookup for a non-empty token: the query is logged once and the
    outcome is decided by the catalog's answer. *)
Lemma tmdb_lookup_nonempty (env : Env) (key nm : string) (log : list string) :
  PyStr.nonempty nm = true ->
  tmdb_lookup env key (Some nm) log =
  (Ret match tmdb_search env key (clean nm) with
       | OracleResults (c :: _) =>
           match fst (match_of_candidate c (clean nm) log) with
           | Ret m => m
           | Raise _ => degraded (clean nm)
           end
       | _ => degraded (clean nm)
       end,
   log ++ [clean nm]).
Proof.
  intros Hne. unfold tmdb_lookup. rewrite Hne. simpl.
  unfold try_except, search_results, bind, append, raise, ret.
  destruct (tmdb_search env key (clean nm)) as [| | | |[|c rest]]; try reflexivity.
  rewrite !match_of_candidate_cases.
  destruct (cand_id c); [|reflexivity].
  destruct (cand_first_air_date c) as [d|]; [|reflexivity].
  destruct (PyStr.nonempty d); [|reflexivity].
  destruct (PyStr.int (PyStr.split_dash_head d)); reflexivity.
Qed.

Lemma tmdb_lookup_falsy (env : Env) (key : string) (anime_name : option string)
    (log : list string) :
  truthy_str anime_name = false ->
  tmdb_lookup env key anime_name log = (Ret unknown_anime, log).
Proof.
  destruct anime_name as [nm|]; simpl; intros H; [|reflexivity].
  unfold tmdb_lookup. rewrite H. reflexivity.
Qed.

Lemma tmdb_lookup_returns (env : Env) (key : string) (anime_name : option string)
    (log : list string) :
  exists m log', tmdb_lookup env key anime_name log = (Ret m, log').
Proof.
  destruct (truthy_str anime_name) eqn:Ht.
  - destruct anime_name as [nm|]; [|discriminate]. simpl in Ht.
    rewrite (tmdb_lookup_nonempty env key nm log Ht). eauto.
  - rewrite (tmdb_lookup_falsy env key anime_name log Ht). eauto.
Qed.

(** ** List bookkeeping *)

Lemma omap_app {A B} (f : A -> option B) (xs ys : list A) :
  omap f (xs ++ ys) = omap f xs ++ omap f ys.
Proof.
  induction xs as [|x xs IH]; simpl; [reflexivity|].
  destruct (f x); simpl; now rewrite IH.
Qed.

Lemma omap_In {A B} (f : A -> option B) (xs : list A) (y : B) :
  In y (omap f xs) <-> exists x, In x xs /\ f x = Some y.
Proof.
  induction xs as [|x xs IH]; simpl.
  - split; [tauto|]. intros (x & [] & _).
  - destruct (f x) as [z|] eqn:Hfx; simpl; rewrite ?IH; split.
    + intros [<-|(x' & Hin & Hf)]; eauto.
    + intros (x' & [<-|Hin] & Hf); [left; congruence|right; eauto].
    + intros (x' & Hin & Hf); eauto.
    + intros (x' & [<-|Hin] & Hf); [congruence|eauto].
Qed.

Lemma number_from_length (ps : list Payload) :
  forall k, List.length (number_from k ps) = List.length ps.
Proof. induction ps as [|p ps IH]; intros k; simpl; [reflexivity|now rewrite IH]. Qed.

Lemma number_from_app (ps qs : list Payload) :
  forall k, number_from k (ps ++ qs) =
            number_from k ps ++ number_from (k + List.length ps) qs.
Proof.
  induction ps as [|p ps IH]; intros k; simpl.
  - now rewrite Nat.add_0_r.
  - rewrite IH. now rewrite Nat.add_succ_r.
Qed.

Lemma number_from_In (ps : list Payload) :
  forall k r, In r (number_from k ps) -> exists j p, In p ps /\ r = entry_of j p.
Proof.
  induction ps as [|p ps IH]; intros k r Hin; simpl in *; [contradiction|].
  destruct Hin as [<-|Hin].
  - exists k, p. auto.
  - destruct (IH _ _ Hin) as (j & q & Hq & ->). exists j, q. auto.
Qed.

(** The [j]-th record carries serial number [k + j + 1] and the [j]-th
    payload. *)
Lemma number_from_nth (ps : list Payload) :
  forall k j p, nth_error ps j = Some p ->
                nth_error (number_from k ps) j = Some (entry_of (k + j) p).
Proof.
  induction ps as [|q ps IH]; intros k j p Hnth; destruct j; simpl in *; try discriminate.
  - injection Hnth as ->. now rewrite Nat.add_0_r.
  - rewrite (IH (S k) j p Hnth). now rewrite Nat.add_succ_r.
Qed.

Lemma combine_map_self {A B} (g : A -> B) (xs : list A) :
  combine xs (map g xs) = map (fun x => (x, g x)) xs.
Proof. induction xs as [|x xs IH]; simpl; [reflexivity|now rewrite IH]. Qed.

Lemma firstn_add {A} (xs : list A) :
  forall a b, firstn (a + b) xs = firstn a xs ++ firstn b (skipn a xs).
Proof.
  induction xs as [|x xs IH]; intros a b.
  - now rewrite !firstn_nil, skipn_nil, firstn_nil.
  - destruct a; simpl; [reflexivity|]. now rewrite IH.
Qed.

Lemma In_slice {A} (xs : list A) (i j : Z) (x : A) :
  In x (AnimeExtractor.slice xs i j) -> In x xs.
Proof.
  unfold AnimeExtractor.slice. intros H.
  rewrite <- (firstn_skipn (Z.to_nat i) xs). apply in_or_app. right.
  rewrite <- (firstn_skipn (Z.to_nat (j - i)) (skipn (Z.to_nat i) xs)).
  apply in_or_app. now left.
Qed.

(** ** Concurrent execution of tasks that only append *)

Lemma insert_by_time_perm {A} (time : A -> nat) (x : A) (sorted : list A) :
  Permutation (insert_by_time time x sorted) (x :: sorted).
Proof.
  induction sorted as [|y sorted IH]; cbn; [reflexivity|].
  destruct (time x <=? time y)%nat; [reflexivity|].
  rewrite IH. apply perm_swap.
Qed.

(** The schedule runs every task once. *)
Lemma schedule_perm {A} (time : A -> nat) (xs : list A) :
  Permutation (schedule time xs) xs.
Proof.
  unfold schedule. induction xs as [|x xs IH]; cbn; [reflexivity|].
  rewrite insert_by_time_perm. now constructor.
Qed.

Lemma insert_by_time_map {A B} (g : A -> B) (time : B -> nat) (x : A) (sorted : list A) :
  insert_by_time time (g x) (map g sorted) =
  map g (insert_by_time (fun a => time (g a)) x sorted).
Proof.
  induction sorted as [|y sorted IH]; cbn; [reflexivity|].
  destruct (time (g x) <=? time (g y))%nat; cbn; [reflexivity|now rewrite IH].
Qed.

Lemma schedule_map {A B} (g : A -> B) (time : B -> nat) (xs : list A) :
  schedule time (map g xs) = map g (schedule (fun a => time (g a)) xs).
Proof.
  unfold schedule. induction xs as [|x xs IH]; cbn; [reflexivity|].
  now rewrite IH, insert_by_time_map.
Qed.

Lemma schedule_single {A} (time : A -> nat) (x : A) : schedule time [x] = [x].
Proof. reflexivity. Qed.

Lemma combine_seq_fst {A} (xs : list A) :
  forall k, map fst (combine (seq k (List.length xs)) xs) = seq k (List.length xs).
Proof. induction xs as [|x xs IH]; intros k; cbn; [reflexivity|now rewrite IH]. Qed.

Lemma combine_seq_snd {A} (xs : list A) :
  forall k, map snd (combine (seq k (List.length xs)) xs) = xs.
Proof. induction xs as [|x xs IH]; intros k; cbn; [reflexivity|now rewrite IH]. Qed.

Lemma find_by_position {A} (done : list (nat * A)) (i : nat) (r : A) :
  NoDup (map fst done) -> In (i, r) done ->
  find (fun d => Nat.eqb (fst d) i) done = Some (i, r).
Proof.
  induction done as [|[j q] done IH]; cbn; [contradiction|].
  intros Hnd [Heq|Hin].
  - injection Heq as -> ->. now rewrite Nat.eqb_refl.
  - inversion Hnd as [|? ? Hnotin Hnd']; subst.
    destruct (Nat.eqb_spec j i) as [->|_]; [|now apply IH].
    elim Hnotin. apply in_map_iff. now exists (i, r).
Qed.

Lemma flat_map_singleton {A B} (f : A -> list B) (g : A -> B) (xs : list A) :
  (forall x, In x xs -> f x = [g x]) -> flat_map f xs = map g xs.
Proof.
  induction xs as [|x xs IH]; intros H; cbn; [reflexivity|].
  rewrite (H x) by now left. cbn. f_equal. apply IH. intros y Hy. apply H. now right.
Qed.

Lemma flat_map_of_map {A B C} (f : B -> list C) (g : A -> B) (xs : list A) :
  flat_map f (map g xs) = flat_map (fun x => f (g x)) xs.
Proof. induction xs as [|x xs IH]; cbn; [reflexivity|now rewrite IH]. Qed.

(** A task is framed when it returns the same value on every state and
    only appends to it. *)
Lemma run_timed_framed {X A} (order : list (nat * (nat * M (list X) A))) :
  (forall t, In t order ->
             forall s, snd (snd t) s = (fst (snd (snd t) []), s ++ snd (snd (snd t) []))) ->
  forall done s,
    fold_left run_timed order (done, s) =
    (done ++ map (fun t => (fst t, fst (snd (snd t) []))) order,
     s ++ List.concat (map (fun t => snd (snd (snd t) [])) order)).
Proof.
  induction order as [|t order IH]; intros Hframe done s; cbn [fold_left map List.concat].
  - now rewrite !app_nil_r.
  - unfold run_timed at 2. rewrite (Hframe t) by now left.
    rewrite IH by (intros t' Ht'; apply Hframe; now right).
    now rewrite <- !app_assoc.
Qed.

(** Framed tasks run concurrently: the values come back in submission
    order, the appended entries in the order of the schedule. *)
Lemma run_concurrently_framed {X A} (tasks : list (nat * M (list X) A)) (s : list X) :
  (forall t, In t tasks -> forall st, snd t st = (fst (snd t []), st ++ snd (snd t []))) ->
  run_concurrently tasks s =
  (Ret (map (fun t => fst (snd t [])) tasks),
   s ++ List.concat (map (fun t => snd (snd t [])) (schedule fst tasks))).
Proof.
  intros Hframe. unfold run_concurrently.
  set (indexed := combine (seq 0 (List.length tasks)) tasks).
  set (order := schedule (fun t => fst (snd t)) indexed).
  assert (Hperm : Permutation order indexed) by apply schedule_perm.
  assert (Hsnd : map snd indexed = tasks) by apply combine_seq_snd.
  assert (Hfst : map fst indexed = seq 0 (List.length tasks)) by apply combine_seq_fst.
  assert (Hframe' : forall t, In t order ->
            forall st, snd (snd t) st = (fst (snd (snd t) []), st ++ snd (snd (snd t) []))).
  { intros t Ht st. apply Hframe. rewrite <- Hsnd. apply in_map.
    now apply (Permutation_in _ Hperm). }
  rewrite (run_timed_framed order Hframe'). cbn [app]. f_equal.
  - f_equal. rewrite <- Hfst, flat_map_of_map.
    rewrite flat_map_singleton
      with (g := fun t : nat * (nat * M (list X) A) => fst (snd (snd t) [])).
    + rewrite <- Hsnd, map_map. reflexivity.
    + intros t Ht. unfold result_at.
      rewrite (find_by_position _ (fst t) (fst (snd (snd t) []))); [reflexivity| |].
      * rewrite map_map. cbn [fst].
        apply (Permutation_NoDup (l := map fst indexed)).
        -- apply Permutation_map. now symmetry.
        -- rewrite Hfst. apply seq_NoDup.
      * apply in_map_iff. exists t. split; [reflexivity|].
        apply (Permutation_in _ (Permutation_sym Hperm)). exact Ht.
  - f_equal. f_equal. rewrite <- Hsnd.
    rewrite (schedule_map snd fst indexed), map_map. reflexivity.
Qed.

Lemma Permutation_filter {A} (p : A -> bool) (xs ys : list A) :
  Permutation xs ys -> Permutation (filter p xs) (filter p ys).
Proof.
  induction 1 as [|x xs ys _ IH|x y xs|xs ys zs _ IH1 _ IH2]; cbn.
  - constructor.
  - destruct (p x); [now constructor|exact IH].
  - destruct (p x), (p y); try reflexivity. apply perm_swap.
  - now transitivity (filter p ys).
Qed.

(** ** The asynchronous orchestrator, batch by batch *)

Lemma extract_framed (env : Env) (u : string) (st : list string) :
  AnimeExtractor.extract_episodes_and_name env u st =
  (fst (AnimeExtractor.extract_episodes_and_name env u []),
   st ++ snd (AnimeExtractor.extract_episodes_and_name env u [])).
Proof.
  rewrite !extract_episodes_and_name_spec.
  destruct (fetch_async env u) as [[[f l] nm]|]; cbn; [now rewrite app_nil_r|reflexivity].
Qed.

Lemma extract_appended (env : Env) (batch : list string) :
  List.concat (map (fun u => snd (AnimeExtractor.extract_episodes_and_name env u [])) batch) =
  filter (async_failed env) batch.
Proof.
  induction batch as [|u batch IH]; [reflexivity|]. cbn [map List.concat filter].
  rewrite IH, extract_episodes_and_name_spec. unfold async_failed.
  destruct (fetch_async env u) as [[[f l] nm]|]; reflexivity.
Qed.

Lemma gather_extract (env : Env) (batch : list string) (errs : list string) :
  AnimeExtractor.gather (map (AnimeExtractor.fetch_task env) batch) errs =
  (Ret (map (fun u => Ret (fetched_of (fetch_async env u))) batch),
   errs ++ filter (async_failed env) (schedule (arrival_time env) batch)).
Proof.
  unfold AnimeExtractor.gather. rewrite run_concurrently_framed.
  - rewrite map_map. unfold AnimeExtractor.fetch_task at 1. cbn [snd].
    f_equal.
    + f_equal. apply map_ext. intros u. rewrite extract_episodes_and_name_spec.
      destruct (fetch_async env u) as [[[f l] nm]|]; reflexivity.
    + f_equal.
      rewrite (schedule_map (AnimeExtractor.fetch_task env) fst batch), map_map.
      unfold AnimeExtractor.fetch_task. cbn [fst snd]. apply extract_appended.
  - intros t Ht st. apply in_map_iff in Ht. destruct Ht as (u & <- & _).
    unfold AnimeExtractor.fetch_task. cbn [snd]. apply extract_framed.
Qed.

Lemma enqueue_emit (env : Env) (self : AnimeExtractor.Self) (u : string)
    (sd : list SeriesRecord) :
  fold_left AnimeExtractor.collect
            (AnimeExtractor.enqueue env self u (Ret (fetched_of (fetch_async env u)))) sd =
  sd ++ number_from (List.length sd) (omap (async_emit env self) [u]).
Proof.
  unfold async_emit, AnimeExtractor.enqueue, omap, fetched_of, AnimeExtractor.nothing.
  destruct (fetch_async env u) as [[[f l] [nm|]]|];
    try (simpl; now rewrite app_nil_r).
  change (truthy_int (Some f) && truthy_int (Some l) && truthy_str (Some nm))
    with (negb (f =? 0) && negb (l =? 0) && PyStr.nonempty nm).
  generalize (submit env u (AnimeExtractor.get_tmdb_info_sync env self (Some nm))).
  intros future.
  destruct (negb (f =? 0) && negb (l =? 0) && PyStr.nonempty nm);
    [|simpl; now rewrite app_nil_r].
  destruct future as [m|e]; simpl; [reflexivity|now rewrite app_nil_r].
Qed.

Lemma collect_batch (env : Env) (self : AnimeExtractor.Self) (batch : list string) :
  forall sd,
    fold_left AnimeExtractor.collect
      (AnimeExtractor.tmdb_tasks_of env self batch
         (map (fun u => Ret (fetched_of (fetch_async env u))) batch)) sd =
    sd ++ number_from (List.length sd) (omap (async_emit env self) batch).
Proof.
  unfold AnimeExtractor.tmdb_tasks_of. rewrite combine_map_self.
  induction batch as [|u batch IH]; intros sd.
  - cbn [map flat_map fold_left omap number_from]. now rewrite app_nil_r.
  - cbn [map flat_map fst snd].
    rewrite fold_left_app, enqueue_emit, IH.
    change (omap (async_emit env self) (u :: batch))
      with (omap (async_emit env self) ([u] ++ batch)).
    rewrite omap_app, number_from_app, length_app, number_from_length.
    now rewrite app_assoc.
Qed.

Lemma process_batch_spec (env : Env) (self : AnimeExtractor.Self)
    (batch : list string) (sd : list SeriesRecord) (errs : list string) :
  AnimeExtractor.process_batch env self batch sd errs =
  (Ret (sd ++ number_from (List.length sd) (omap (async_emit env self) batch)),
   errs ++ filter (async_failed env) (schedule (arrival_time env) batch)).
Proof.
  unfold AnimeExtractor.process_batch, bind. rewrite gather_extract.
  unfold ret. now rewrite collect_batch.
Qed.

Lemma for_batches_spec (env : Env) (self : AnimeExtractor.Self) (urls : list string)
    (starts : list Z) :
  forall sd errs,
    AnimeExtractor.for_batches env self urls starts sd errs =
    (Ret (sd ++ number_from (List.length sd)
                  (omap (async_emit env self) (List.concat (batches_of self urls starts)))),
     errs ++ filter (async_failed env)
               (List.concat (map (schedule (arrival_time env))
                                 (batches_of self urls starts)))).
Proof.
  induction starts as [|i starts IH]; intros sd errs; simpl.
  - unfold ret. now rewrite !app_nil_r.
  - unfold bind. rewrite process_batch_spec, IH.
    rewrite omap_app, number_from_app, filter_app, length_app, number_from_length.
    now rewrite !app_assoc.
Qed.

Lemma concat_schedule_perm {A} (time : A -> nat) (batches : list (list A)) :
  Permutation (List.concat (map (schedule time) batches)) (List.concat batches).
Proof.
  induction batches as [|b batches IH]; cbn; [reflexivity|].
  apply Permutation_app; [apply schedule_perm|exact IH].
Qed.

(** With a positive batch size the slices cover the input, in order. *)
Lemma slices_prefix (urls : list string) (n : nat) (k : nat) :
  List.concat (map (fun j => firstn n (skipn (j * n) urls)) (seq 0 k)) = firstn (k * n) urls.
Proof.
  induction k as [|k IH]; [reflexivity|].
  rewrite seq_S, map_app, concat_app, IH. simpl.
  rewrite app_nil_r, <- firstn_add. f_equal. lia.
Qed.

Lemma batches_cover (self : AnimeExtractor.Self) (urls : list string) (starts : list Z) :
  0 < AnimeExtractor.max_workers self ->
  AnimeExtractor.py_range0 (Z.of_nat (List.length urls)) (AnimeExtractor.max_workers self)
    = Some starts ->
  List.concat (batches_of self urls starts) = urls.
Proof.
  intros Hpos Hrange. unfold AnimeExtractor.py_range0 in Hrange.
  destruct (Z.eqb_spec (AnimeExtractor.max_workers self) 0) as [|_]; [lia|].
  destruct (Z.ltb_spec (AnimeExtractor.max_workers self) 0) as [|_]; [lia|].
  injection Hrange as <-.
  set (w := AnimeExtractor.max_workers self) in *.
  set (len := Z.of_nat (List.length urls)).
  unfold batches_of. rewrite map_map.
  fold w.
  rewrite (map_ext _ (fun j => firstn (Z.to_nat w) (skipn (j * Z.to_nat w) urls))).
  - rewrite slices_prefix. apply firstn_all2.
    assert (H : len <= (len + w - 1) / w * w).
    { pose proof (Z.div_mod (len + w - 1) w ltac:(lia)) as Hdm.
      pose proof (Z.mod_pos_bound (len + w - 1) w Hpos). nia. }
    apply Nat2Z.inj_le. fold len. rewrite Nat2Z.inj_mul, !Z2Nat.id; lia.
  - intros j. unfold AnimeExtractor.slice. f_equal.
    + f_equal. lia.
    + f_equal. rewrite Z2Nat.inj_mul, Nat2Z.id by lia. reflexivity.
Qed.

(** ** The asynchronous orchestrator as a whole *)

Lemma process_urls_async_inv (env : Env) (self : AnimeExtractor.Self)
    (urls errs : list string) (records : list SeriesRecord) (errs' : list string) :
  AnimeExtractor.process_urls_async env self urls errs = (Ret records, errs') ->
  exists starts,
    records = number_from 0 (omap (async_emit env self)
                               (List.concat (batches_of self urls starts))) /\
    errs' = errs ++ filter (async_failed env) (async_arrivals env self urls) /\
    (0 < AnimeExtractor.max_workers self ->
     List.concat (batches_of self urls starts) = urls).
Proof.
  unfold AnimeExtractor.process_urls_async, async_arrivals, bind, or_raise.
  destruct (AnimeExtractor.py_range0 _ _) as [starts|] eqn:Hrange; [|discriminate].
  unfold ret. rewrite for_batches_spec. intros H. injection H as <- <-.
  exists starts. repeat split. intros Hpos. now apply batches_cover.
Qed.

(** With a positive batch size every URL reaches the shared list once. *)
Lemma async_arrivals_perm (env : Env) (self : AnimeExtractor.Self) (urls : list string) :
  0 < AnimeExtractor.max_workers self ->
  Permutation (async_arrivals env self urls) urls.
Proof.
  intros Hpos. unfold async_arrivals.
  destruct (AnimeExtractor.py_range0 _ _) as [starts|] eqn:Hrange.
  - rewrite concat_schedule_perm. now rewrite (batches_cover _ _ _ Hpos Hrange).
  - unfold AnimeExtractor.py_range0 in Hrange.
    destruct (Z.eqb_spec (AnimeExtractor.max_workers self) 0); [lia|].
    destruct (AnimeExtractor.max_workers self <? 0); discriminate.
Qed.

Lemma async_arrivals_single (env : Env) (self : AnimeExtractor.Self) (url : string) :
  0 < AnimeExtractor.max_workers self -> async_arrivals env self [url] = [url].
Proof.
  intros Hpos. apply Permutation_length_1_inv. symmetry.
  now apply async_arrivals_perm.
Qed.

Lemma process_urls_async_spec (env : Env) (self : AnimeExtractor.Self)
    (urls errs : list string) :
  0 < AnimeExtractor.max_workers self ->
  AnimeExtractor.process_urls_async env self urls errs =
  (Ret (number_from 0 (omap (async_emit env self) urls)),
   errs ++ filter (async_failed env) (async_arrivals env self urls)).
Proof.
  intros Hpos.
  unfold AnimeExtractor.process_urls_async, async_arrivals, bind, or_raise.
  destruct (AnimeExtractor.py_range0 _ _) as [starts|] eqn:Hrange.
  - unfold ret. rewrite for_batches_spec. now rewrite (batches_cover _ _ _ Hpos Hrange).
  - unfold AnimeExtractor.py_range0 in Hrange.
    destruct (Z.eqb_spec (AnimeExtractor.max_workers self) 0); [lia|].
    destruct (AnimeExtractor.max_workers self <? 0); discriminate.
Qed.

Lemma In_batches (self : AnimeExtractor.Self) (urls : list string) (starts : list Z)
    (u : string) :
  In u (List.concat (batches_of self urls starts)) -> In u urls.
Proof.
  unfold batches_of. rewrite in_concat. intros (b & Hb & Hu).
  apply in_map_iff in Hb. destruct Hb as (i & <- & _). eapply In_slice; eauto.
Qed.

(** ** The thread-pool orchestrator as a whole *)

Lemma results_or_raise_rets {S B} (ys : list B) (s : S) :
  results_or_raise (map Ret ys) s = (Ret ys, s).
Proof.
  induction ys as [|y ys IH]; [reflexivity|]. cbn [map results_or_raise].
  unfold bind. now rewrite IH.
Qed.

Lemma single_url_framed (env : Env) (u : string) (st : list string) :
  process_single_url env u st =
  (fst (process_single_url env u []), st ++ snd (process_single_url env u [])).
Proof.
  rewrite !process_single_url_spec.
  destruct (fetch_sync env u) as [[[f l] nm]|]; cbn; [now rewrite app_nil_r|reflexivity].
Qed.

Lemma single_url_appended (env : Env) (urls : list string) :
  List.concat (map (fun u => snd (process_single_url env u [])) urls) =
  filter (sync_failed env) urls.
Proof.
  induction urls as [|u urls IH]; [reflexivity|]. cbn [map List.concat filter].
  rewrite IH, process_single_url_spec. unfold sync_failed.
  destruct (fetch_sync env u) as [[[f l] nm]|]; reflexivity.
Qed.

Lemma executor_map_fetch (env : Env) (urls : list string) (errs : list string) :
  executor_map (arrival_time env) (process_single_url env) urls errs =
  (Ret (map (fun u => match fetch_sync env u with
                      | Some (f, l, nm) => Some (f, l, nm, u)
                      | None => None
                      end) urls),
   errs ++ filter (sync_failed env) (schedule (arrival_time env) urls)).
Proof.
  unfold executor_map, bind. rewrite run_concurrently_framed.
  - rewrite map_map. cbn [snd fst].
    rewrite (map_ext _ (fun u => Ret (match fetch_sync env u with
                                      | Some (f, l, nm) => Some (f, l, nm, u)
                                      | None => None
                                      end))).
    + rewrite <- (map_map _ Ret), results_or_raise_rets. f_equal. f_equal.
      rewrite (schedule_map (fun x => (arrival_time env x, process_single_url env x))
                 fst urls), map_map.
      cbn [fst snd]. apply single_url_appended.
    + intros u. rewrite process_single_url_spec.
      destruct (fetch_sync env u) as [[[f l] nm]|]; reflexivity.
  - intros t Ht st. apply in_map_iff in Ht. destruct Ht as (u & <- & _).
    cbn [snd]. apply single_url_framed.
Qed.

Lemma sync_tasks_omap (env : Env) (key : string) (urls : list string) :
  sync_tasks_of env key
    (valid_results_of (map (fun u => match fetch_sync env u with
                                     | Some (f, l, nm) => Some (f, l, nm, u)
                                     | None => None
                                     end) urls)) =
  omap (sync_task env key) urls.
Proof.
  unfold sync_tasks_of.
  induction urls as [|u urls IH]; [reflexivity|].
  cbn [map valid_results_of omap]. unfold sync_task at 1.
  destruct (fetch_sync env u) as [[[f l] nm]|]; cbn [map valid_results_of]; now rewrite IH.
Qed.

Lemma sync_collect_fold (tasks : list SyncTask) :
  forall sd errs,
    fold_left sync_collect tasks (sd, errs) =
    (sd ++ number_from (List.length sd) (omap sync_payload tasks),
     errs ++ omap sync_raised tasks).
Proof.
  induction tasks as [|t tasks IH]; intros sd errs.
  - cbn. now rewrite !app_nil_r.
  - cbn [fold_left omap].
    destruct t as [future [[[f l] nm] u]].
    unfold sync_collect at 2, sync_payload at 1, sync_raised at 1, task_url.
    cbn [fst snd].
    destruct future as [m|e]; rewrite IH.
    + rewrite length_app. cbn [List.length number_from].
      rewrite <- !app_assoc. cbn [app]. repeat f_equal. lia.
    + now rewrite <- app_assoc.
Qed.

Lemma fast_sync_version_spec (env : Env) (key : string) (urls errs : list string) :
  fast_sync_version env key urls errs =
  let done := as_completed env (omap (sync_task env key) urls) in
  (Ret (number_from 0 (omap sync_payload done)),
   errs ++ filter (sync_failed env) (schedule (arrival_time env) urls)
        ++ omap sync_raised done).
Proof.
  unfold fast_sync_version, bind. rewrite executor_map_fetch, sync_tasks_omap.
  rewrite sync_collect_fold. cbn [app List.length]. now rewrite app_assoc.
Qed.

Lemma insert_completed_perm (env : Env) (t : SyncTask) (done : list SyncTask) :
  Permutation (insert_completed env t done) (t :: done).
Proof.
  induction done as [|x done IH]; cbn; [reflexivity|].
  destruct (finish_time env (task_url t) <=? finish_time env (task_url x))%nat.
  - reflexivity.
  - rewrite IH. apply perm_swap.
Qed.

(** Every submitted future is yielded exactly once. *)
Lemma as_completed_perm (env : Env) (tasks : list SyncTask) :
  Permutation (as_completed env tasks) tasks.
Proof.
  unfold as_completed. induction tasks as [|t tasks IH]; cbn; [reflexivity|].
  rewrite insert_completed_perm. now constructor.
Qed.

(** ** Provenance of emitted records *)

Lemma infer_ordered (env : Env) (body : Body) (f l : Z) (nm : option string) :
  infer env body = Some (f, l, nm) -> f <= l.
Proof.
  unfold infer. destruct body as [| |[h|]]; try discriminate.
  destruct (PyStr.nonempty h); [|discriminate].
  destruct (episode_numbers_of (find_all_ep_items env h)) as [|n rest]; [discriminate|].
  intros H. injection H as <- <- _.
  pose proof (fold_min_le rest n). pose proof (fold_max_ge rest n). lia.
Qed.

Lemma fetch_async_ordered (env : Env) (url : string) (f l : Z) (nm : option string) :
  fetch_async env url = Some (f, l, nm) -> f <= l.
Proof.
  unfold fetch_async. destruct (http_get env url) as [|st body]; [discriminate|].
  destruct (st =? 200); [|discriminate].
  destruct (json_content_type env url); [apply infer_ordered|discriminate].
Qed.

Lemma fetch_sync_ordered (env : Env) (url : string) (f l : Z) (nm : option string) :
  fetch_sync env url = Some (f, l, nm) -> f <= l.
Proof.
  unfold fetch_sync. destruct (http_get env url) as [|st body]; [discriminate|].
  destruct ((400 <=? st) && (st <? 600)); [discriminate|apply infer_ordered].
Qed.

Lemma async_emit_inv (env : Env) (self : AnimeExtractor.Self) (url : string) (p : Payload) :
  async_emit env self url = Some p ->
  exists f l nm m,
    p = (f, l, Some nm, m) /\ fetch_async env url = Some (f, l, Some nm) /\
    f <> 0 /\ l <> 0 /\ nm <> EmptyString /\
    submit env url (AnimeExtractor.get_tmdb_info_sync env self (Some nm)) = Ret m.
Proof.
  unfold async_emit.
  destruct (fetch_async env url) as [[[f l] [nm|]]|]; try discriminate.
  destruct (Z.eqb_spec f 0); [discriminate|].
  destruct (Z.eqb_spec l 0); [discriminate|].
  destruct nm as [|c nm]; [discriminate|]. cbn [negb andb PyStr.nonempty].
  destruct (submit env url _) as [m|e] eqn:Hsub; [|discriminate].
  intros H. injection H as <-. exists f, l, (String c nm), m.
  repeat split; auto. discriminate.
Qed.

Lemma entry_matches_range (j : nat) (f l : Z) (nm : option string) (m : CatalogMatch) :
  f <= l -> record_matches_range (entry_of j (f, l, nm, m)) f l.
Proof.
  intros Hle. unfold record_matches_range, entry_of, episodes_str. cbn.
  repeat split.
  - intros ->. now rewrite Z.eqb_refl.
  - lia.
  - destruct (Z.eqb_spec f l); [contradiction|reflexivity].
Qed.

Lemma async_record_origin (env : Env) (self : AnimeExtractor.Self)
    (urls errs : list string) (records : list SeriesRecord) (errs' : list string)
    (r : SeriesRecord) :
  AnimeExtractor.process_urls_async env self urls errs = (Ret records, errs') ->
  In r records ->
  exists url j f l nm m,
    In url urls /\ fetch_async env url = Some (f, l, Some nm) /\
    r = entry_of j (f, l, Some nm, m) /\ f <> 0 /\ l <> 0 /\ nm <> EmptyString.
Proof.
  intros Hrun Hin.
  destruct (process_urls_async_inv _ _ _ _ _ _ Hrun) as (starts & -> & _ & _).
  destruct (number_from_In _ _ _ Hin) as (j & p & Hp & ->).
  apply omap_In in Hp. destruct Hp as (url & Hurl & Hemit).
  destruct (async_emit_inv _ _ _ _ Hemit) as (f & l & nm & m & -> & Hf & H1 & H2 & H3 & _).
  exists url, j, f, l, nm, m. repeat split; auto. eapply In_batches; eauto.
Qed.

Lemma sync_record_origin (env : Env) (key : string)
    (urls errs : list string) (records : list SeriesRecord) (errs' : list string)
    (r : SeriesRecord) :
  fast_sync_version env key urls errs = (Ret records, errs') ->
  In r records ->
  exists url j f l nm m,
    In url urls /\ fetch_sync env url = Some (f, l, nm) /\ r = entry_of j (f, l, nm, m).
Proof.
  rewrite fast_sync_version_spec. cbv zeta. intros Hrun Hin.
  injection Hrun as <- _.
  destruct (number_from_In _ _ _ Hin) as (j & p & Hp & ->).
  apply omap_In in Hp. destruct Hp as (t & Ht & Hpay).
  apply (Permutation_in _ (as_completed_perm env _)) in Ht.
  apply omap_In in Ht. destruct Ht as (url & Hurl & Htask).
  unfold sync_task in Htask.
  destruct (fetch_sync env url) as [[[f l] nm]|] eqn:Hf; [|discriminate].
  injection Htask as <-. cbn in Hpay.
  destruct (submit env url _) as [m|e]; [|discriminate].
  injection Hpay as <-. exists url, j, f, l, nm, m. auto.
Qed.

(** The fetchers' results in terms of the source functions. *)
Lemma fetch_async_run (env : Env) (url : string) (f l : Z) (nm : option string) :
  fetch_async env url = Some (f, l, nm) <->
  fst (AnimeExtractor.extract_episodes_and_name env url []) = Ret (Some f, Some l, nm).
Proof.
  rewrite extract_episodes_and_name_spec.
  destruct (fetch_async env url) as [[[f' l'] nm']|]; cbn; split; intros H;
    try discriminate; injection H as -> -> ->; reflexivity.
Qed.

Lemma fetch_sync_run (env : Env) (url : string) (f l : Z) (nm : option string) :
  fetch_sync env url = Some (f, l, nm) <->
  fst (process_single_url env url []) = Ret (Some (f, l, nm, url)).
Proof.
  rewrite process_single_url_spec.
  destruct (fetch_sync env url) as [[[f' l'] nm']|]; cbn; split; intros H;
    try discriminate; injection H as -> -> ->; reflexivity.
Qed.

(* ================================================================== *)
(** * The claims *)

(** ** C6: range inference *)

(** C6 (as amended).  Whenever range inference delivers [(first, last)] for
    a listing, [first <= last]; they are equal when exactly one numeric
    episode id is present; they are equal if and only if all numeric
    episode ids present in the listing have the same value; and when the
    numeric ids are pairwise distinct they are equal if and only if exactly
    one numeric id is present. *)
Theorem range_inference_bounds {S} (ep_items : list EpItem) (s s' : S) (f l : Z) :
  first_last (episode_numbers_of ep_items) s = (Ret (f, l), s') ->
  f <= l /\
  (List.length (episode_numbers_of ep_items) = 1%nat -> f = l) /\
  (f = l <-> forall n, In n (episode_numbers_of ep_items) -> n = f) /\
  (NoDup (episode_numbers_of ep_items) ->
   (f = l <-> List.length (episode_numbers_of ep_items) = 1%nat)).
Proof.
  destruct (episode_numbers_of ep_items) as [|n rest] eqn:Hnums.
  - rewrite first_last_nil. discriminate.
  - rewrite first_last_cons. intros H. injection H as <- <- _.
    pose proof (fold_min_le rest n) as Hmin. pose proof (fold_max_ge rest n) as Hmax.
    assert (Hone : List.length (n :: rest) = 1%nat ->
                   fold_left Z.min rest n = fold_left Z.max rest n).
    { destruct rest; [reflexivity|discriminate]. }
    assert (Hall : fold_left Z.min rest n = fold_left Z.max rest n ->
                   forall k, In k (n :: rest) -> k = fold_left Z.min rest n).
    { intros Heq k Hk.
      pose proof (fold_min_lower rest n k Hk).
      pose proof (fold_max_upper rest n k Hk). lia. }
    split; [lia|]. split; [exact Hone|]. split; [split; [exact Hall|]|].
    + intros Hsame.
      assert (Hn : n = fold_left Z.min rest n) by (apply Hsame; now left).
      assert (Hm : forall r x, (forall k, In k r -> k <= x) -> fold_left Z.max r x = x).
      { clear. induction r as [|y r IH]; intros x Hx; cbn; [reflexivity|].
        assert (y <= x) by (apply Hx; now left).
        replace (Z.max x y) with x by lia. apply IH. intros k Hk. apply Hx. now right. }
      rewrite (Hm rest n); [lia|].
      intros k Hk. rewrite (Hsame k (or_intror Hk)). lia.
    + intros Hnodup. split; [|exact Hone].
      intros Heq. destruct rest as [|y rest]; [reflexivity|]. exfalso.
      inversion Hnodup as [|? ? Hnotin _]; subst. apply Hnotin.
      rewrite (Hall Heq y) by (right; now left).
      rewrite <- (Hall Heq n) by now left. now left.
Qed.

Lemma range_inference_bounds_witness :
  3 <= 7 /\
  (List.length (episode_numbers_of items_three) = 1%nat -> 3 = 7) /\
  (3 = 7 <-> forall n, In n (episode_numbers_of items_three) -> n = 3) /\
  (NoDup (episode_numbers_of items_three) ->
   (3 = 7 <-> List.length (episode_numbers_of items_three) = 1%nat)).
Proof.
  apply (range_inference_bounds items_three (@nil string) (@nil string) 3 7).
  reflexivity.
Defined.

(** C6 (as stated) fails: a listing with two items that carry the same
    numeric id yields [first = last] although two numeric ids are present. *)
Lemma range_equal_with_two_ids :
  first_last (episode_numbers_of items_twice) (@nil string) = (Ret (5, 5), []) /\
  List.length (episode_numbers_of items_twice) = 2%nat /\
  ~ (forall (ep_items : list EpItem) (f l : Z),
        first_last (episode_numbers_of ep_items) (@nil string) = (Ret (f, l), []) ->
        (f = l <-> List.length (episode_numbers_of ep_items) = 1%nat)).
Proof.
  split; [reflexivity|]. split; [reflexivity|].
  intros H. specialize (H items_twice 5 5 eq_refl).
  destruct H as [H _]. specialize (H eq_refl). discriminate.
Qed.

(** ** C8: derived fields of a record *)

(** C8.  In both orchestrators every emitted record stems from a submitted
    URL whose fetch delivered a range [(first, last)]; its [episode_offset]
    is [first - 1] and its [episodes] field is the decimal string of
    [first] when [first = last], and otherwise [first-last] with
    [first < last]. *)
Theorem series_record_fields (env : Env) :
  (forall self urls errs records errs' r,
      AnimeExtractor.process_urls_async env self urls errs = (Ret records, errs') ->
      In r records ->
      exists url f l nm,
        In url urls /\
        fst (AnimeExtractor.extract_episodes_and_name env url []) = Ret (Some f, Some l, nm) /\
        record_matches_range r f l) /\
  (forall key urls errs records errs' r,
      fast_sync_version env key urls errs = (Ret records, errs') ->
      In r records ->
      exists url f l nm,
        In url urls /\
        fst (process_single_url env url []) = Ret (Some (f, l, nm, url)) /\
        record_matches_range r f l).
Proof.
  split.
  - intros self urls errs records errs' r Hrun Hin.
    destruct (async_record_origin _ _ _ _ _ _ _ Hrun Hin)
      as (url & j & f & l & nm & m & Hurl & Hf & -> & _).
    exists url, f, l, (Some nm). split; [assumption|]. split.
    + now apply fetch_async_run.
    + apply entry_matches_range. eapply fetch_async_ordered; eauto.
  - intros key urls errs records errs' r Hrun Hin.
    destruct (sync_record_origin _ _ _ _ _ _ _ Hrun Hin)
      as (url & j & f & l & nm & m & Hurl & Hf & ->).
    exists url, f, l, nm. split; [assumption|]. split.
    + now apply fetch_sync_run.
    + apply entry_matches_range. eapply fetch_sync_ordered; eauto.
Qed.

Lemma series_record_fields_witness :
  let env := demo_env 200 markup_three items_three (OracleResults []) false no_delay in
  let r := entry_of 0 (3, 7, Some "some-show?", degraded "some show?") in
  (exists url f l nm,
      In url [listing_url 10000] /\
      fst (AnimeExtractor.extract_episodes_and_name env url []) = Ret (Some f, Some l, nm) /\
      record_matches_range r f l) /\
  (exists url f l nm,
      In url [listing_url 10000] /\
      fst (process_single_url env url []) = Ret (Some (f, l, nm, url)) /\
      record_matches_range r f l).
Proof.
  intros env r. split.
  - apply (proj1 (series_record_fields env) demo_self [listing_url 10000] [] [r] []).
    + reflexivity.
    + left. reflexivity.
  - apply (proj2 (series_record_fields env) "key" [listing_url 10000] [] [r] []).
    + reflexivity.
    + left. reflexivity.
Defined.

(** ** C10: what the truthiness test of the asynchronous pipeline lets
    through *)

(** C10 (as amended).  In the asynchronous pipeline every emitted record
    stems from a fetch whose [first] and [last] are both different from
    zero (so [episode_offset] is different from [-1]) and whose name is a
    non-empty string; a fetched listing whose minimum or maximum is zero
    contributes neither a record nor an entry of [error_urls]. *)
Theorem async_records_nonzero (env : Env) (self : AnimeExtractor.Self) :
  (forall urls errs records errs' r,
      AnimeExtractor.process_urls_async env self urls errs = (Ret records, errs') ->
      In r records ->
      exists url f l nm,
        In url urls /\
        fst (AnimeExtractor.extract_episodes_and_name env url []) =
          Ret (Some f, Some l, Some nm) /\
        f <> 0 /\ l <> 0 /\ episode_offset r = f - 1 /\ episode_offset r <> -1 /\
        name r = Some nm /\ nm <> EmptyString) /\
  (forall url errs f l nm,
      0 < AnimeExtractor.max_workers self ->
      fst (AnimeExtractor.extract_episodes_and_name env url []) = Ret (Some f, Some l, nm) ->
      f = 0 \/ l = 0 ->
      AnimeExtractor.process_urls_async env self [url] errs = (Ret [], errs)).
Proof.
  split.
  - intros urls errs records errs' r Hrun Hin.
    destruct (async_record_origin _ _ _ _ _ _ _ Hrun Hin)
      as (url & j & f & l & nm & m & Hurl & Hf & -> & Hf0 & Hl0 & Hnm).
    exists url, f, l, nm. split; [assumption|]. split; [now apply fetch_async_run|].
    split; [assumption|]. split; [assumption|]. split; [reflexivity|].
    split; [change (f - 1 <> -1); lia|]. split; [reflexivity|assumption].
  - intros url errs f l nm Hpos Hfetch Hzero.
    apply fetch_async_run in Hfetch.
    rewrite (process_urls_async_spec env self [url] errs Hpos).
    rewrite (async_arrivals_single env self url Hpos).
    cbn [omap filter]. unfold async_emit, async_failed. rewrite Hfetch.
    assert (Hz : negb (f =? 0) && negb (l =? 0) = false).
    { destruct Hzero as [-> | ->]; cbn; [reflexivity|apply andb_false_r]. }
    destruct nm as [nm|]; [rewrite Hz|]; cbn; now rewrite app_nil_r.
Qed.

Lemma async_records_nonzero_witness :
  let env := demo_env 200 markup_zero items_zero (OracleResults []) false no_delay in
  AnimeExtractor.process_urls_async env demo_self [listing_url 10000] [] = (Ret [], []).
Proof.
  intros env.
  apply (proj2 (async_records_nonzero env demo_self)
           (listing_url 10000) [] 0 0 (Some "some-show?")).
  - reflexivity.
  - reflexivity.
  - left. reflexivity.
Defined.

(** C10 (as stated) fails: a negative [data-id] passes the truthiness test,
    and the record emitted for it has a negative [episode_offset]. *)
Lemma negative_episode_emitted :
  let env := demo_env 200 markup_negative items_negative (OracleResults []) false no_delay in
  exists r,
    AnimeExtractor.process_urls_async env demo_self [listing_url 10000] [] = (Ret [r], []) /\
    fst (AnimeExtractor.extract_episodes_and_name env (listing_url 10000) []) =
      Ret (Some (-3), Some (-3), Some "some-show?") /\
    episode_offset r = -4 /\
    ~ (0 <= episode_offset r).
Proof.
  intros env. eexists. split; [reflexivity|]. split; [reflexivity|].
  split; [reflexivity|]. change (~ (0 <= -4)). lia.
Qed.

(** ** C4: order of the output *)

Lemma nth_error_middle {A} (xs ys : list A) (y : A) :
  nth_error (xs ++ y :: ys) (List.length xs) = Some y.
Proof. induction xs as [|x xs IH]; cbn; [reflexivity|exact IH]. Qed.

(** C4 (as amended).  The asynchronous orchestrator emits its records in
    submission order, within a batch and across batches: the output is the
    in-order image of the URL list, so the record of an earlier URL sits at
    a smaller position (and carries a smaller serial number) than the record
    of a later one.  The thread-pool orchestrator emits its records in the
    order in which the enrichment futures complete, which is a permutation
    of the submission order. *)
Theorem output_order (env : Env) :
  (forall self urls errs,
      0 < AnimeExtractor.max_workers self ->
      exists records,
        fst (AnimeExtractor.process_urls_async env self urls errs) = Ret records /\
        records = number_from 0 (omap (async_emit env self) urls) /\
        forall l1 u1 l2 u2 l3 p1 p2,
          urls = l1 ++ u1 :: l2 ++ u2 :: l3 ->
          async_emit env self u1 = Some p1 ->
          async_emit env self u2 = Some p2 ->
          exists i j, (i < j)%nat /\
                      nth_error records i = Some (entry_of i p1) /\
                      nth_error records j = Some (entry_of j p2)) /\
  (forall key urls errs,
      let done := as_completed env (omap (sync_task env key) urls) in
      fst (fast_sync_version env key urls errs) = Ret (number_from 0 (omap sync_payload done)) /\
      Permutation done (omap (sync_task env key) urls)).
Proof.
  split.
  - intros self urls errs Hpos.
    exists (number_from 0 (omap (async_emit env self) urls)).
    split; [now rewrite process_urls_async_spec|]. split; [reflexivity|].
    intros l1 u1 l2 u2 l3 p1 p2 -> H1 H2.
    set (e := async_emit env self) in *.
    assert (Hshape : omap e (l1 ++ u1 :: l2 ++ u2 :: l3) =
                     omap e l1 ++ p1 :: omap e l2 ++ p2 :: omap e l3).
    { rewrite omap_app. cbn [omap]. rewrite H1, omap_app. cbn [omap]. now rewrite H2. }
    rewrite Hshape.
    exists (List.length (omap e l1)),
           (List.length (omap e l1 ++ p1 :: omap e l2)).
    split; [rewrite length_app; cbn; lia|]. split.
    + apply (number_from_nth _ 0). apply nth_error_middle.
    + apply (number_from_nth _ 0).
      replace (omap e l1 ++ p1 :: omap e l2 ++ p2 :: omap e l3)
        with ((omap e l1 ++ p1 :: omap e l2) ++ p2 :: omap e l3)
        by (now rewrite <- app_assoc).
      apply nth_error_middle.
  - intros key urls errs done. split.
    + now rewrite fast_sync_version_spec.
    + apply as_completed_perm.
Qed.

Lemma output_order_witness :
  exists records,
    fst (AnimeExtractor.process_urls_async two_listings_env demo_self
           [listing_url 1; listing_url 2] []) = Ret records /\
    records = number_from 0 (omap (async_emit two_listings_env demo_self)
                               [listing_url 1; listing_url 2]) /\
    forall l1 u1 l2 u2 l3 p1 p2,
      [listing_url 1; listing_url 2] = l1 ++ u1 :: l2 ++ u2 :: l3 ->
      async_emit two_listings_env demo_self u1 = Some p1 ->
      async_emit two_listings_env demo_self u2 = Some p2 ->
      exists i j, (i < j)%nat /\
                  nth_error records i = Some (entry_of i p1) /\
                  nth_error records j = Some (entry_of j p2).
Proof.
  apply (proj1 (output_order two_listings_env) demo_self [listing_url 1; listing_url 2] []).
  reflexivity.
Defined.

(** C4 (as stated) fails for the thread-pool orchestrator: when the future
    of the second URL completes first, its record is emitted first. *)
Lemma completion_order_overrides_submission :
  let urls := [listing_url 1; listing_url 2] in
  fst (process_single_url two_listings_env (listing_url 1) []) =
    Ret (Some (1, 1, Some "alpha?", listing_url 1)) /\
  fst (process_single_url two_listings_env (listing_url 2) []) =
    Ret (Some (2, 2, Some "beta?", listing_url 2)) /\
  fst (fast_sync_version two_listings_env "key" urls []) =
    Ret [entry_of 0 (2, 2, Some "beta?", degraded "beta?");
         entry_of 1 (1, 1, Some "alpha?", degraded "alpha?")] /\
  fst (fast_sync_version two_listings_env "key" urls []) <>
    Ret (number_from 0 (omap sync_payload (omap (sync_task two_listings_env "key") urls))).
Proof.
  cbv zeta. split; [reflexivity|]. split; [reflexivity|]. split; [reflexivity|].
  vm_compute. discriminate.
Qed.

(** ** C9: the two fetchers compared *)

(** C9 (as amended).  The two fetchers produce the same outcome for the
    same answer (the same triple on success, a failure recorded for the URL
    otherwise) on a transport failure, on every status in 400..599, and on
    status 200 when the answer declares a JSON media type.  On any other
    status the asynchronous fetcher fails, whereas the thread-pool fetcher
    goes by the body alone; and an answer that does not declare a JSON media
    type always fails in the asynchronous fetcher, whose decoder refuses it,
    while the thread-pool fetcher does not look at the media type. *)
Theorem fetchers_agree (env : Env) (url : string) (errs : list string) :
  ((http_get env url = ConnectionFailed \/
    exists status body,
      http_get env url = Reply status body /\
      (status = 200 /\ json_content_type env url = true \/ 400 <= status < 600)) ->
   same_outcome url (AnimeExtractor.extract_episodes_and_name env url errs)
                    (process_single_url env url errs)) /\
  (forall status body,
      http_get env url = Reply status body -> status <> 200 ->
      AnimeExtractor.extract_episodes_and_name env url errs =
        (Ret AnimeExtractor.nothing, errs ++ [url])) /\
  (json_content_type env url = false ->
   AnimeExtractor.extract_episodes_and_name env url errs =
     (Ret AnimeExtractor.nothing, errs ++ [url])) /\
  (forall status body,
      http_get env url = Reply status body -> ~ (400 <= status < 600) ->
      process_single_url env url errs =
        match infer env body with
        | Some (f, l, nm) => (Ret (Some (f, l, nm, url)), errs)
        | None => (Ret None, errs ++ [url])
        end).
Proof.
  rewrite extract_episodes_and_name_spec, process_single_url_spec.
  unfold fetch_async, fetch_sync, same_outcome.
  split; [|split; [|split]].
  - intros [Hfail | (status & body & Hreply & Hstatus)].
    + rewrite Hfail. cbn. auto.
    + rewrite Hreply. destruct Hstatus as [[-> Hct] | Hrange].
      * rewrite Hct. cbn. destruct (infer env body) as [[[f l] nm]|]; cbn; auto.
      * destruct (Z.eqb_spec status 200) as [|_]; [lia|].
        destruct (Z.leb_spec 400 status); [|lia].
        destruct (Z.ltb_spec status 600); [|lia]. cbn. auto.
  - intros status body -> Hne.
    destruct (Z.eqb_spec status 200); [contradiction|reflexivity].
  - intros Hct. rewrite Hct.
    destruct (http_get env url) as [|status body]; [reflexivity|].
    destruct (status =? 200); reflexivity.
  - intros status body -> Hout.
    destruct (Z.leb_spec 400 status); destruct (Z.ltb_spec status 600);
      cbn; try reflexivity. lia.
Qed.

Lemma fetchers_agree_witness :
  let env := demo_env 200 markup_single items_single (OracleResults []) false no_delay in
  same_outcome (listing_url 10000)
    (AnimeExtractor.extract_episodes_and_name env (listing_url 10000) [])
    (process_single_url env (listing_url 10000) []).
Proof.
  intros env.
  apply (proj1 (fetchers_agree env (listing_url 10000) [])).
  right. exists 200, (JsonObject (Some markup_single)).
  split; [reflexivity|left; split; reflexivity].
Defined.

(** C9 (as stated) fails: a response with status 201 and a well-formed
    listing is a failure for the asynchronous fetcher and a success for the
    thread-pool fetcher. *)
Lemma fetchers_differ_on_201 :
  let env := demo_env 201 markup_single items_single (OracleResults []) false no_delay in
  let url := listing_url 10000 in
  AnimeExtractor.extract_episodes_and_name env url [] =
    (Ret AnimeExtractor.nothing, [url]) /\
  process_single_url env url [] =
    (Ret (Some (42, 42, Some "some-show-12?", url)), []) /\
  ~ same_outcome url (AnimeExtractor.extract_episodes_and_name env url [])
                     (process_single_url env url []).
Proof.
  cbv zeta. split; [reflexivity|]. split; [reflexivity|].
  intros [Hsnd _]. vm_compute in Hsnd. discriminate.
Qed.

(** ** C7: totality of the enricher *)

(** C7.  For every token and every behaviour of the catalog the enricher
    returns a match and raises nothing; a transport error gives exactly the
    result of an empty result list, which for a non-empty token is the
    match without id and year whose title is the title-cased normalised
    name. *)
Theorem enricher_total (env : Env) (self : AnimeExtractor.Self)
    (anime_name : option string) (log : list string) :
  (exists m log',
      AnimeExtractor.get_tmdb_info_sync env self anime_name log = (Ret m, log')) /\
  (forall env',
      (forall nm, anime_name = Some nm ->
                  tmdb_search env (AnimeExtractor.api_key self) (clean nm)
                    = OracleTransportError /\
                  tmdb_search env' (AnimeExtractor.api_key self) (clean nm)
                    = OracleResults []) ->
      AnimeExtractor.get_tmdb_info_sync env self anime_name log =
      AnimeExtractor.get_tmdb_info_sync env' self anime_name log) /\
  (forall nm,
      anime_name = Some nm -> nm <> EmptyString ->
      tmdb_search env (AnimeExtractor.api_key self) (clean nm) = OracleTransportError ->
      fst (AnimeExtractor.get_tmdb_info_sync env self anime_name log) =
        Ret {| cm_tmdb_id := None; cm_year := None; cm_title := PyStr.title (clean nm) |}).
Proof.
  unfold AnimeExtractor.get_tmdb_info_sync. split; [|split].
  - apply tmdb_lookup_returns.
  - intros env' Hsame. destruct anime_name as [nm|]; [|reflexivity].
    destruct (PyStr.nonempty nm) eqn:Hne.
    + destruct (Hsame nm eq_refl) as [Herr Hnone].
      rewrite !tmdb_lookup_nonempty by assumption. now rewrite Herr, Hnone.
    + rewrite !tmdb_lookup_falsy by (cbn; assumption). reflexivity.
  - intros nm -> Hne Herr.
    rewrite tmdb_lookup_nonempty by (destruct nm; [contradiction|reflexivity]).
    now rewrite Herr.
Qed.

Lemma enricher_total_witness :
  let env := demo_env 200 markup_single items_single OracleTransportError false no_delay in
  fst (AnimeExtractor.get_tmdb_info_sync env demo_self (Some "some-show-12?") []) =
    Ret {| cm_tmdb_id := None; cm_year := None; cm_title := "Some Show" |}.
Proof.
  intros env.
  apply (proj2 (proj2 (enricher_total env demo_self (Some "some-show-12?") []))
           "some-show-12?").
  - reflexivity.
  - discriminate.
  - reflexivity.
Defined.

(** ** C5: the sentinel *)

(** C5 (as amended).  The fixed sentinel is returned, and no query is sent
    to the catalog, exactly for a token that is itself absent or empty:
    both enrichers test the token before normalising it.  A non-empty token
    whose normalised form is empty is sent to the catalog as the empty
    query. *)
Theorem sentinel_for_empty_token (env : Env) (self : AnimeExtractor.Self)
    (key : string) (log : list string) :
  (forall anime_name,
      truthy_str anime_name = false ->
      AnimeExtractor.get_tmdb_info_sync env self anime_name log = (Ret unknown_anime, log) /\
      get_tmdb_info_sync env anime_name key log = (Ret unknown_anime, log)) /\
  (forall nm,
      nm <> EmptyString -> clean nm = EmptyString ->
      snd (AnimeExtractor.get_tmdb_info_sync env self (Some nm) log) = log ++ [EmptyString] /\
      snd (get_tmdb_info_sync env (Some nm) key log) = log ++ [EmptyString]).
Proof.
  unfold AnimeExtractor.get_tmdb_info_sync, get_tmdb_info_sync. split.
  - intros anime_name Hfalsy. now rewrite !tmdb_lookup_falsy.
  - intros nm Hne Hclean.
    assert (Ht : PyStr.nonempty nm = true) by (destruct nm; [contradiction|reflexivity]).
    rewrite !tmdb_lookup_nonempty by assumption. rewrite Hclean. cbn. auto.
Qed.

Lemma sentinel_for_empty_token_witness :
  let env := demo_env 200 markup_single items_single (OracleResults []) false no_delay in
  (AnimeExtractor.get_tmdb_info_sync env demo_self (Some EmptyString) [] =
     (Ret unknown_anime, []) /\
   get_tmdb_info_sync env (Some EmptyString) "key" [] = (Ret unknown_anime, [])) /\
  (snd (AnimeExtractor.get_tmdb_info_sync env demo_self (Some "-1?") []) = [EmptyString] /\
   snd (get_tmdb_info_sync env (Some "-1?") "key" []) = [EmptyString]).
Proof.
  intros env. split.
  - apply (proj1 (sentinel_for_empty_token env demo_self "key" []) (Some EmptyString)).
    reflexivity.
  - apply (proj2 (sentinel_for_empty_token env demo_self "key" []) "-1?").
    + discriminate.
    + reflexivity.
Defined.

(** C5 (as stated) fails: the token [-1?] normalises to the empty string,
    yet the catalog is queried and the title returned is not the sentinel. *)
Lemma empty_normal_form_is_queried :
  let env := demo_env 200 markup_single items_single (OracleResults []) false no_delay in
  clean "-1?" = EmptyString /\
  AnimeExtractor.get_tmdb_info_sync env demo_self (Some "-1?") [] =
    (Ret {| cm_tmdb_id := None; cm_year := None; cm_title := EmptyString |},
     [EmptyString]) /\
  get_tmdb_info_sync env (Some "-1?") "key" [] =
    (Ret {| cm_tmdb_id := None; cm_year := None; cm_title := EmptyString |},
     [EmptyString]) /\
  AnimeExtractor.get_tmdb_info_sync env demo_self (Some "-1?") [] <> (Ret unknown_anime, []).
Proof.
  cbv zeta. split; [reflexivity|]. split; [reflexivity|]. split; [reflexivity|].
  vm_compute. discriminate.
Qed.

(** ** C3: the first candidate *)

(** C3 (as amended).  When the catalog returns at least one candidate and
    the first one carries an id and a name, then: if its first-air date is
    missing or empty, the match has that id and name and no year; if the
    part of the date before the first dash reads as an integer, the match
    has that id and name and that integer as year; if it does not, the
    whole match degrades to the no-result value (no id, no year, title-cased
    normalised name).  Both enrichers behave so. *)
Theorem first_candidate_match (env : Env) (self : AnimeExtractor.Self)
    (nm : string) (log : list string) (c : Candidate) (rest : list Candidate)
    (i : Z) (t : string) :
  nm <> EmptyString ->
  tmdb_search env (AnimeExtractor.api_key self) (clean nm) = OracleResults (c :: rest) ->
  cand_id c = Some i ->
  cand_name c = Some t ->
  let expected :=
    match cand_first_air_date c with
    | None => {| cm_tmdb_id := Some i; cm_year := None; cm_title := t |}
    | Some d =>
        if PyStr.nonempty d then
          match PyStr.int (PyStr.split_dash_head d) with
          | Some y => {| cm_tmdb_id := Some i; cm_year := Some y; cm_title := t |}
          | None => {| cm_tmdb_id := None; cm_year := None;
                       cm_title := PyStr.title (clean nm) |}
          end
        else {| cm_tmdb_id := Some i; cm_year := None; cm_title := t |}
    end in
  fst (AnimeExtractor.get_tmdb_info_sync env self (Some nm) log) = Ret expected /\
  fst (get_tmdb_info_sync env (Some nm) (AnimeExtractor.api_key self) log) = Ret expected.
Proof.
  intros Hne Hsearch Hid Hname expected.
  unfold AnimeExtractor.get_tmdb_info_sync, get_tmdb_info_sync.
  assert (Ht : PyStr.nonempty nm = true) by (destruct nm; [contradiction|reflexivity]).
  rewrite tmdb_lookup_nonempty by assumption.
  rewrite Hsearch, match_of_candidate_cases, Hid, Hname.
  subst expected. cbn [fst].
  destruct (cand_first_air_date c) as [d|]; [|auto].
  destruct (PyStr.nonempty d); [|auto].
  destruct (PyStr.int (PyStr.split_dash_head d)); auto.
Qed.

Lemma first_candidate_match_witness :
  let c := {| cand_id := Some 37854; cand_first_air_date := Some "1999-10-20";
              cand_name := Some "One Piece" |} in
  let env := demo_env 200 markup_single items_single (OracleResults [c]) false no_delay in
  let expected := {| cm_tmdb_id := Some 37854; cm_year := Some 1999;
                     cm_title := "One Piece" |} in
  fst (AnimeExtractor.get_tmdb_info_sync env demo_self (Some "one-piece-12?") []) =
    Ret expected /\
  fst (get_tmdb_info_sync env (Some "one-piece-12?") (AnimeExtractor.api_key demo_self) []) =
    Ret expected.
Proof.
  intros c env expected.
  apply (first_candidate_match env demo_self "one-piece-12?" [] c [] 37854 "One Piece").
  - discriminate.
  - reflexivity.
  - reflexivity.
  - reflexivity.
Defined.

(** C3 (as stated) fails: with a first-air date that does not start with a
    number the candidate's id and name are lost as well. *)
Lemma unparsable_date_loses_candidate :
  let c := {| cand_id := Some 37854; cand_first_air_date := Some "TBA";
              cand_name := Some "ONE PIECE" |} in
  let env := demo_env 200 markup_single items_single (OracleResults [c]) false no_delay in
  fst (AnimeExtractor.get_tmdb_info_sync env demo_self (Some "one-piece-12?") []) =
    Ret {| cm_tmdb_id := None; cm_year := None; cm_title := "One Piece" |} /\
  fst (get_tmdb_info_sync env (Some "one-piece-12?") "key" []) =
    Ret {| cm_tmdb_id := None; cm_year := None; cm_title := "One Piece" |} /\
  fst (AnimeExtractor.get_tmdb_info_sync env demo_self (Some "one-piece-12?") []) <>
    Ret {| cm_tmdb_id := Some 37854; cm_year := None; cm_title := "ONE PIECE" |}.
Proof.
  cbv zeta. split; [reflexivity|]. split; [reflexivity|].
  vm_compute. discriminate.
Qed.

(** ** C1 and C2: accounting for every URL *)

Lemma omap_split_length {A} (tasks : list A) (f : A -> option Payload)
    (g : A -> option string) :
  (forall t, (exists p, f t = Some p /\ g t = None) \/ (exists u, f t = None /\ g t = Some u)) ->
  (List.length (omap f tasks) + List.length (omap g tasks) = List.length tasks)%nat.
Proof.
  intros Hcases. induction tasks as [|t tasks IH]; [reflexivity|].
  cbn [omap List.length].
  destruct (Hcases t) as [(p & -> & ->) | (u & -> & ->)]; cbn [List.length]; lia.
Qed.

Lemma sync_payload_or_raised (t : SyncTask) :
  (exists p, sync_payload t = Some p /\ sync_raised t = None) \/
  (exists u, sync_payload t = None /\ sync_raised t = Some u).
Proof.
  destruct t as [[m|e] [[[f l] nm] u]]; cbn; eauto.
Qed.

Lemma sync_failed_or_task (env : Env) (key : string) (urls : list string) :
  (List.length (filter (sync_failed env) urls) +
   List.length (omap (sync_task env key) urls) = List.length urls)%nat.
Proof.
  induction urls as [|u urls IH]; [reflexivity|].
  cbn [filter omap List.length]. unfold sync_failed at 1, sync_task at 1.
  destruct (fetch_sync env u) as [[[f l] nm]|]; cbn [List.length]; lia.
Qed.

(** The thread-pool orchestrator accounts for every URL: each one adds
    either one record or one entry of [error_urls]. *)
Lemma fast_sync_accounts_for_every_url (env : Env) (key : string)
    (urls errs : list string) (records : list SeriesRecord) (errs' : list string) :
  fast_sync_version env key urls errs = (Ret records, errs') ->
  exists failed,
    errs' = errs ++ failed /\
    (List.length records + List.length failed = List.length urls)%nat.
Proof.
  rewrite fast_sync_version_spec. cbv zeta. intros H. injection H as <- <-.
  eexists. split; [reflexivity|].
  rewrite number_from_length, length_app.
  pose proof (omap_split_length (as_completed env (omap (sync_task env key) urls))
                sync_payload sync_raised sync_payload_or_raised) as Hdone.
  pose proof (Permutation_length (as_completed_perm env (omap (sync_task env key) urls))).
  pose proof (Permutation_length
                (Permutation_filter (sync_failed env) _ _
                   (schedule_perm (arrival_time env) urls))).
  pose proof (sync_failed_or_task env key urls). lia.
Qed.

(** In the thread-pool orchestrator a URL whose fetch succeeded and whose
    enrichment result cannot be retrieved ends in [error_urls]. *)
Lemma fast_sync_records_pool_failure (env : Env) (key : string)
    (urls errs : list string) (records : list SeriesRecord) (errs' : list string)
    (url : string) (r : Fetched4) :
  fast_sync_version env key urls errs = (Ret records, errs') ->
  In url urls ->
  fst (process_single_url env url []) = Ret (Some r) ->
  result_raises env url = true ->
  In url errs'.
Proof.
  rewrite fast_sync_version_spec. cbv zeta. intros H Hin Hfetch Hraise.
  injection H as _ <-.
  rewrite process_single_url_spec in Hfetch.
  destruct (fetch_sync env url) as [[[f l] nm]|] eqn:Hf; [|discriminate].
  apply in_or_app. right. apply in_or_app. right.
  apply omap_In.
  exists (Raise TimeoutError, (f, l, nm, url)). split; [|reflexivity].
  apply (Permutation_in _ (Permutation_sym (as_completed_perm env _))).
  apply omap_In. exists url. split; [assumption|].
  unfold sync_task, submit. now rewrite Hf, Hraise.
Qed.

(** C1.  Evaluation at the failing input: the listing has one numeric item
    and no anchor, so the fetch succeeds without a name token.  The
    asynchronous pipeline emits no record for the URL and does not add it to
    [error_urls]; the thread-pool pipeline emits one record for it. *)
Theorem nameless_listing_vanishes :
  let env := demo_env 200 markup_no_link items_no_link (OracleResults []) false no_delay in
  let url := listing_url 10000 in
  AnimeExtractor.extract_episodes_and_name env url [] = (Ret (Some 5, Some 5, None), []) /\
  AnimeExtractor.process_urls_async env demo_self [url] [] = (Ret [], []) /\
  fast_sync_version env "key" [url] [] =
    (Ret [entry_of 0 (5, 5, None, unknown_anime)], []).
Proof.
  cbv zeta. split; [reflexivity|]. split; reflexivity.
Qed.

(** C2.  Evaluation at the failing input: the fetch succeeds and retrieving
    the enrichment result raises.  The asynchronous orchestrator emits no
    record and leaves [error_urls] empty; the thread-pool orchestrator adds
    the URL to [error_urls]. *)
Theorem pool_failure_unrecorded_async :
  let env := demo_env 200 markup_single items_single (OracleResults []) true no_delay in
  let url := listing_url 10000 in
  AnimeExtractor.extract_episodes_and_name env url [] =
    (Ret (Some 42, Some 42, Some "some-show-12?"), []) /\
  result_raises env url = true /\
  AnimeExtractor.process_urls_async env demo_self [url] [] = (Ret [], []) /\
  fast_sync_version env "key" [url] [] = (Ret [], [url]).
Proof.
  cbv zeta. split; [reflexivity|]. split; [reflexivity|]. split; reflexivity.
Qed.

(* ================================================================== *)
(** * Further properties of the code *)

(** ** Decimal strings *)

Lemma digit_not_space (c : ascii) : PyStr.is_digit c = true -> PyStr.is_space c = false.
Proof.
  unfold PyStr.is_digit, PyStr.is_space. generalize (nat_of_ascii c). intros n H.
  apply andb_true_iff in H. destruct H as [H1 H2].
  apply Nat.leb_le in H1. apply Nat.leb_le in H2.
  apply orb_false_iff. split; apply andb_false_iff.
  - right. apply Nat.leb_gt. lia.
  - right. apply Nat.leb_gt. lia.
Qed.

Lemma digit_not_dash (c : ascii) : PyStr.is_digit c = true -> Ascii.eqb c "-" = false.
Proof.
  intros H. destruct (Ascii.eqb_spec c "-") as [->|]; [discriminate H|reflexivity].
Qed.

Lemma uint_string_digits (d : Decimal.uint) :
  all_chars PyStr.is_digit (NilEmpty.string_of_uint d) = true.
Proof. induction d; cbn; auto. Qed.

Lemma all_chars_impl (p q : ascii -> bool) (s : string) :
  (forall c, p c = true -> q c = true) -> all_chars p s = true -> all_chars q s = true.
Proof.
  intros Hpq. induction s as [|c s IH]; cbn; [reflexivity|].
  intros H. apply andb_true_iff in H. destruct H as [Hc Hs].
  now rewrite (Hpq c Hc), (IH Hs).
Qed.

Lemma all_chars_forallb (p : ascii -> bool) (s : string) :
  all_chars p s = forallb p (list_ascii_of_string s).
Proof. induction s as [|c s IH]; cbn; [reflexivity|now rewrite IH]. Qed.

Lemma all_chars_rev (p : ascii -> bool) (s : string) :
  all_chars p s = true -> all_chars p (PyStr.rev_string s) = true.
Proof.
  unfold PyStr.rev_string. rewrite !all_chars_forallb, list_ascii_of_string_of_list_ascii.
  rewrite !forallb_forall. intros H c Hc. apply H. now apply in_rev.
Qed.

Lemma rev_string_involutive (s : string) : PyStr.rev_string (PyStr.rev_string s) = s.
Proof.
  unfold PyStr.rev_string.
  now rewrite list_ascii_of_string_of_list_ascii, rev_involutive,
    string_of_list_ascii_of_string.
Qed.

Lemma lstrip_first (s : string) : not_space (first_char s) -> PyStr.lstrip s = s.
Proof. destruct s as [|c s]; cbn; [reflexivity|]. now intros ->. Qed.

(** A string without whitespace at either end is left alone by [strip]. *)
Lemma strip_trimmed (s : string) :
  not_space (first_char s) -> not_space (last_char s) -> PyStr.strip s = s.
Proof.
  intros Hfirst Hlast. unfold PyStr.strip, PyStr.rstrip.
  rewrite (lstrip_first s Hfirst), (lstrip_first _ Hlast).
  apply rev_string_involutive.
Qed.

Lemma all_chars_first (p : ascii -> bool) (s : string) :
  all_chars p s = true ->
  match first_char s with Some c => p c = true | None => True end.
Proof.
  destruct s as [|c s]; cbn; [trivial|]. intros H. now apply andb_true_iff in H.
Qed.

Lemma strip_no_space (s : string) :
  all_chars (fun c => negb (PyStr.is_space c)) s = true -> PyStr.strip s = s.
Proof.
  intros H. apply strip_trimmed.
  - pose proof (all_chars_first _ _ H) as Hf. unfold not_space.
    destruct (first_char s); [now apply negb_true_iff|trivial].
  - pose proof (all_chars_first _ _ (all_chars_rev _ _ H)) as Hl.
    unfold not_space, last_char.
    destruct (first_char (PyStr.rev_string s)); [now apply negb_true_iff|trivial].
Qed.

Lemma int_digits_uint_pos (d : Decimal.uint) :
  forall acc, PyStr.int_digits (Z.pos acc) false (NilEmpty.string_of_uint d) =
              Some (Z.pos (Pos.of_uint_acc d acc)).
Proof.
  induction d; intros acc; cbn [NilEmpty.string_of_uint PyStr.int_digits Pos.of_uint_acc];
    [reflexivity|..];
    match goal with
    | |- context [PyStr.is_digit ?c] =>
        change (PyStr.is_digit c) with true; cbv iota;
        rewrite <- IHd; f_equal;
        let v := eval vm_compute in (PyStr.digit_val c) in
        change (PyStr.digit_val c) with v; lia
    end.
Qed.

Lemma int_digits_uint_zero (d : Decimal.uint) :
  PyStr.int_digits 0 false (NilEmpty.string_of_uint d) = Some (Z.of_N (Pos.of_uint d)).
Proof.
  induction d; cbn [NilEmpty.string_of_uint PyStr.int_digits Pos.of_uint];
    [reflexivity|exact IHd|..];
    match goal with
    | |- context [PyStr.is_digit ?c] =>
        change (PyStr.is_digit c) with true; cbv iota;
        cbn [Z.of_N]; rewrite <- int_digits_uint_pos; reflexivity
    end.
Qed.

Lemma int_unsigned_uint (d : Decimal.uint) :
  d <> Decimal.Nil ->
  PyStr.int_unsigned (NilEmpty.string_of_uint d) = Some (Z.of_N (Pos.of_uint d)).
Proof.
  intros Hd. rewrite <- int_digits_uint_zero.
  destruct d; [contradiction|reflexivity..].
Qed.

Lemma int_of_digit_first (c : ascii) (r : string) :
  PyStr.is_digit c = true ->
  match String c r with
  | String "-" r' => option_map Z.opp (PyStr.int_unsigned r')
  | String "+" r' => PyStr.int_unsigned r'
  | t => PyStr.int_unsigned t
  end = PyStr.int_unsigned (String c r).
Proof.
  destruct c as [[|] [|] [|] [|] [|] [|] [|] [|]]; intros H;
    try discriminate H; reflexivity.
Qed.

Lemma pos_string_shape (p : positive) :
  exists c r, NilZero.string_of_uint (Pos.to_uint p) = String c r /\
              NilEmpty.string_of_uint (Pos.to_uint p) = String c r /\
              PyStr.is_digit c = true /\ all_chars PyStr.is_digit (String c r) = true.
Proof.
  pose proof (DecimalPos.Unsigned.to_uint_nonnil p) as Hnil.
  pose proof (uint_string_digits (Pos.to_uint p)) as Hdig.
  destruct (Pos.to_uint p) eqn:Hd; [contradiction|..];
    cbn [NilZero.string_of_uint NilEmpty.string_of_uint] in *;
    eexists _, _; (split; [reflexivity|]); (split; [reflexivity|]);
    (split; [reflexivity|exact Hdig]).
Qed.

Lemma str_of_int_Zpos (p : positive) :
  PyStr.str_of_int (Z.pos p) = NilZero.string_of_uint (Pos.to_uint p).
Proof. reflexivity. Qed.

Lemma str_of_int_Zneg (p : positive) :
  PyStr.str_of_int (Z.neg p) = String "-" (NilZero.string_of_uint (Pos.to_uint p)).
Proof. reflexivity. Qed.

Lemma digits_no_space (s : string) :
  all_chars PyStr.is_digit s = true ->
  all_chars (fun c => negb (PyStr.is_space c)) s = true.
Proof.
  apply all_chars_impl. intros c H. now rewrite (digit_not_space c H).
Qed.

Lemma digit_not_int_space (c : ascii) :
  PyStr.is_digit c = true -> PyStr.is_int_space c = false.
Proof.
  unfold PyStr.is_digit, PyStr.is_int_space. generalize (nat_of_ascii c). intros n H.
  apply andb_true_iff in H. destruct H as [H1 H2].
  apply Nat.leb_le in H1. apply Nat.leb_le in H2.
  apply orb_false_iff. split.
  - apply andb_false_iff. right. apply Nat.leb_gt. lia.
  - apply Nat.eqb_neq. lia.
Qed.

Lemma digits_no_int_space (s : string) :
  all_chars PyStr.is_digit s = true ->
  all_chars (fun c => negb (PyStr.is_int_space c)) s = true.
Proof.
  apply all_chars_impl. intros c H. now rewrite (digit_not_int_space c H).
Qed.

Lemma int_lstrip_no_space (s : string) :
  all_chars (fun c => negb (PyStr.is_int_space c)) s = true -> PyStr.int_lstrip s = s.
Proof.
  destruct s as [|c s]; cbn; [reflexivity|]. intros H.
  apply andb_true_iff in H. destruct H as [Hc _].
  apply negb_true_iff in Hc. now rewrite Hc.
Qed.

(** A literal without whitespace is what [int] parses. *)
Lemma int_strip_no_space (s : string) :
  all_chars (fun c => negb (PyStr.is_int_space c)) s = true -> PyStr.int_strip s = s.
Proof.
  intros H. unfold PyStr.int_strip.
  rewrite (int_lstrip_no_space s H).
  rewrite (int_lstrip_no_space _ (all_chars_rev _ _ H)).
  apply rev_string_involutive.
Qed.

Lemma int_of_pos_string (p : positive) :
  PyStr.int_unsigned (NilZero.string_of_uint (Pos.to_uint p)) = Some (Z.pos p).
Proof.
  destruct (pos_string_shape p) as (c & r & Hz & He & _ & _).
  rewrite Hz, <- He, int_unsigned_uint by apply DecimalPos.Unsigned.to_uint_nonnil.
  now rewrite DecimalPos.Unsigned.of_to.
Qed.

(** Reading back what [f"{n}"] prints. *)
Lemma int_of_str_of_int (n : Z) : PyStr.int (PyStr.str_of_int n) = Some n.
Proof.
  destruct n as [|p|p].
  - reflexivity.
  - rewrite str_of_int_Zpos. unfold PyStr.int.
    destruct (pos_string_shape p) as (c & r & Hz & _ & Hc & Hall).
    rewrite int_strip_no_space by (rewrite Hz; now apply digits_no_int_space).
    rewrite Hz, int_of_digit_first by assumption.
    rewrite <- Hz. apply int_of_pos_string.
  - rewrite str_of_int_Zneg. unfold PyStr.int.
    destruct (pos_string_shape p) as (c & r & Hz & _ & Hc & Hall).
    rewrite int_strip_no_space.
    + rewrite int_of_pos_string. reflexivity.
    + rewrite Hz. cbn [all_chars]. apply digits_no_int_space in Hall.
      cbn [all_chars] in Hall. exact Hall.
Qed.

Lemma str_of_int_inj (a b : Z) : PyStr.str_of_int a = PyStr.str_of_int b -> a = b.
Proof.
  intros H. pose proof (int_of_str_of_int a) as Ha.
  rewrite H, int_of_str_of_int in Ha. now injection Ha.
Qed.

Lemma append_inj (p a b : string) : String.append p a = String.append p b -> a = b.
Proof.
  induction p as [|c p IH]; cbn; [trivial|]. intros H. injection H as H. now apply IH.
Qed.

Lemma listing_url_inj (a b : Z) : listing_url a = listing_url b -> a = b.
Proof. unfold listing_url. intros H. apply append_inj in H. now apply str_of_int_inj. Qed.

Lemma NoDup_map_inj {A B} (f : A -> B) (xs : list A) :
  (forall a b, f a = f b -> a = b) -> NoDup xs -> NoDup (map f xs).
Proof.
  intros Hinj Hnd. induction Hnd as [|x xs Hnotin Hnd IH]; cbn; constructor; [|exact IH].
  intros Hin. apply in_map_iff in Hin. destruct Hin as (y & Hy & Hin).
  apply Hinj in Hy. now subst.
Qed.

(** ** the URL lists of the two entry points *)

Lemma listing_urls_length (lo hi : Z) :
  List.length (listing_urls lo hi) = Z.to_nat (hi - lo).
Proof. unfold listing_urls, py_range. now rewrite !length_map, length_seq. Qed.

Lemma listing_urls_NoDup (lo hi : Z) : NoDup (listing_urls lo hi).
Proof.
  unfold listing_urls, py_range.
  apply NoDup_map_inj; [apply listing_url_inj|].
  apply NoDup_map_inj; [intros a b; lia|apply seq_NoDup].
Qed.

(** X1.  The comprehension over [range(lo, hi)] yields [hi - lo] request targets
    (none when [hi <= lo]), pairwise different, the [k]-th one being the
    template filled with [lo + k]. *)
Theorem listing_urls_distinct (lo hi : Z) :
  List.length (listing_urls lo hi) = Z.to_nat (hi - lo) /\
  NoDup (listing_urls lo hi) /\
  (forall k, (k < Z.to_nat (hi - lo))%nat ->
             nth_error (listing_urls lo hi) k = Some (listing_url (lo + Z.of_nat k))).
Proof.
  split; [apply listing_urls_length|]. split; [apply listing_urls_NoDup|].
  unfold listing_urls, py_range.
  intros k Hk. rewrite map_map.
  rewrite (nth_error_map (fun x => listing_url (lo + Z.of_nat x))).
  now rewrite nth_error_seq, (proj2 (Nat.ltb_lt _ _) Hk).
Qed.

Lemma listing_urls_distinct_witness :
  nth_error (listing_urls 10000 20001) 1 = Some (listing_url (10000 + Z.of_nat 1)).
Proof.
  apply (proj2 (proj2 (listing_urls_distinct 10000 20001)) 1%nat). lia.
Defined.

(** ** the episode string reads back *)

(** X2.  For a single-episode record the [episodes] string, read with [int],
    gives back the episode number, negative numbers included. *)
Theorem single_episode_string_reads_back (first_ep : Z) :
  PyStr.int (episodes_str first_ep first_ep) = Some first_ep.
Proof.
  unfold episodes_str. rewrite Z.eqb_refl. apply int_of_str_of_int.
Qed.

(** ** the single / multiple statistics *)

Lemma contains_dash_digits (s : string) :
  all_chars PyStr.is_digit s = true -> contains_dash s = false.
Proof.
  induction s as [|c s IH]; cbn; [reflexivity|]. intros H.
  apply andb_true_iff in H. destruct H as [Hc Hs].
  now rewrite (digit_not_dash c Hc), (IH Hs).
Qed.

Lemma contains_dash_append (a b : string) :
  contains_dash (String.append a b) = contains_dash a || contains_dash b.
Proof.
  induction a as [|c a IH]; cbn; [reflexivity|]. now rewrite IH, orb_assoc.
Qed.

Lemma contains_dash_str_of_int (n : Z) :
  contains_dash (PyStr.str_of_int n) = (n <? 0).
Proof.
  destruct n as [|p|p]; [reflexivity| |reflexivity].
  rewrite str_of_int_Zpos. destruct (pos_string_shape p) as (c & r & Hz & _ & _ & Hall).
  rewrite Hz. now apply contains_dash_digits.
Qed.

Lemma filter_complement_length {A} (p : A -> bool) (xs : list A) :
  (List.length (filter (fun x => negb (p x)) xs) + List.length (filter p xs)
   = List.length xs)%nat.
Proof.
  induction xs as [|x xs IH]; cbn; [reflexivity|].
  destruct (p x); cbn; lia.
Qed.

(** X3.  The summary splits the records on whether [episodes] contains a dash.
    Every record falls in exactly one of the two lists, and a record built
    from the range [first..last] is counted as a multiple-episode one
    exactly when [first <> last] or [first] is negative (the sign of a
    negative single episode is taken for the separator). *)
Theorem episode_statistics (series_data : list SeriesRecord) :
  (List.length (single_episodes series_data) + List.length (multiple_episodes series_data)
   = List.length series_data)%nat /\
  (forall r, In r (single_episodes series_data) -> ~ In r (multiple_episodes series_data)) /\
  (forall sd first_ep last_ep anime_name m,
      let r := series_entry sd first_ep last_ep anime_name m in
      In r series_data ->
      (In r (multiple_episodes series_data) <-> first_ep <> last_ep \/ first_ep < 0)).
Proof.
  unfold single_episodes, multiple_episodes. split; [|split].
  - apply filter_complement_length.
  - intros r H1. unfold not. intros H2. apply filter_In in H1. apply filter_In in H2.
    destruct H1 as [_ H1]. destruct H2 as [_ H2]. rewrite H2 in H1. discriminate.
  - intros sd f l nm m Hin. rewrite filter_In.
    cbn [series_entry episodes]. unfold episodes_str.
    destruct (Z.eqb_spec f l) as [->|Hne].
    + rewrite contains_dash_str_of_int. split.
      * intros [_ H]. right. now apply Z.ltb_lt.
      * intros [H|H]; [contradiction|]. split; [assumption|now apply Z.ltb_lt].
    + rewrite !contains_dash_append. cbn [contains_dash Ascii.eqb].
      split; [auto|]. intros _. split; [assumption|].
      rewrite orb_true_iff. right. reflexivity.
Qed.

Lemma episode_statistics_witness :
  let r := series_entry [] (-3) (-3) (Some "some-show?") unknown_anime in
  In r (multiple_episodes [r]) <-> -3 <> -3 \/ -3 < 0.
Proof.
  intros r.
  apply (proj2 (proj2 (episode_statistics [r])) [] (-3) (-3) (Some "some-show?") unknown_anime).
  left. reflexivity.
Defined.

(** ** serial numbers *)

Lemma number_from_serial (ps : list Payload) :
  forall k j r, nth_error (number_from k ps) j = Some r ->
                serial_no r = Z.of_nat (k + j) + 1.
Proof.
  induction ps as [|p ps IH]; intros k j r H; destruct j; cbn in H; try discriminate.
  - injection H as <-. destruct p as [[[f l] nm] m]. cbn. now rewrite Nat.add_0_r.
  - rewrite (IH _ _ _ H). f_equal. lia.
Qed.

(** X4.  In both orchestrators the record at position [j] of the output (from
    zero) carries serial number [j + 1]: the numbers are dense, start at
    one and follow the output order, whatever was dropped or failed. *)
Theorem serial_numbers_dense (env : Env) :
  (forall self urls errs records errs' j r,
      AnimeExtractor.process_urls_async env self urls errs = (Ret records, errs') ->
      nth_error records j = Some r -> serial_no r = Z.of_nat j + 1) /\
  (forall key urls errs records errs' j r,
      fast_sync_version env key urls errs = (Ret records, errs') ->
      nth_error records j = Some r -> serial_no r = Z.of_nat j + 1).
Proof.
  split.
  - intros self urls errs records errs' j r Hrun Hnth.
    destruct (process_urls_async_inv _ _ _ _ _ _ Hrun) as (starts & -> & _).
    apply (number_from_serial _ 0 j r Hnth).
  - intros key urls errs records errs' j r Hrun Hnth.
    rewrite fast_sync_version_spec in Hrun. cbv zeta in Hrun. injection Hrun as <- _.
    apply (number_from_serial _ 0 j r Hnth).
Qed.

Lemma serial_numbers_dense_witness :
  let env := demo_env 200 markup_three items_three (OracleResults []) false no_delay in
  let urls := [listing_url 1; listing_url 2] in
  let r := entry_of 1 (3, 7, Some "some-show?", degraded "some show?") in
  serial_no r = Z.of_nat 1 + 1.
Proof.
  intros env urls r.
  apply (proj1 (serial_numbers_dense env) demo_self urls []
           [entry_of 0 (3, 7, Some "some-show?", degraded "some show?"); r] [] 1%nat r).
  - reflexivity.
  - reflexivity.
Defined.

(** ** the fetchers isolate every failure *)

(** X5.  Neither fetcher ever raises.  Each run ends in exactly one of two ways:
    the range is delivered and [error_urls] is left as it was, or the empty
    result is delivered and the URL is appended once at the end. *)
Theorem fetchers_isolate_failures (env : Env) (url : string) (errs : list string) :
  ((exists f l nm,
       AnimeExtractor.extract_episodes_and_name env url errs =
         (Ret (Some f, Some l, nm), errs)) \/
   AnimeExtractor.extract_episodes_and_name env url errs =
     (Ret AnimeExtractor.nothing, errs ++ [url])) /\
  ((exists f l nm,
       process_single_url env url errs = (Ret (Some (f, l, nm, url)), errs)) \/
   process_single_url env url errs = (Ret None, errs ++ [url])).
Proof.
  rewrite extract_episodes_and_name_spec, process_single_url_spec. split.
  - destruct (fetch_async env url) as [[[f l] nm]|]; eauto.
  - destruct (fetch_sync env url) as [[[f l] nm]|]; eauto.
Qed.

(** ** the failure paths of the fetchers *)

(** X6.  A transport failure, a body that is not JSON or not a JSON object, a
    missing or empty [html] member, and markup in which no item carries an
    identifier that [int] accepts (no item at all included): each makes
    both fetchers record the URL and deliver the empty result. *)
Theorem fetch_failure_paths (env : Env) (url : string) (errs : list string) :
  (http_get env url = ConnectionFailed \/
   (exists status, http_get env url = Reply status NotJson) \/
   (exists status, http_get env url = Reply status JsonNotObject) \/
   (exists status, http_get env url = Reply status (JsonObject None)) \/
   (exists status, http_get env url = Reply status (JsonObject (Some EmptyString))) \/
   (exists status h, http_get env url = Reply status (JsonObject (Some h)) /\
                     episode_numbers_of (find_all_ep_items env h) = [])) ->
  AnimeExtractor.extract_episodes_and_name env url errs =
    (Ret AnimeExtractor.nothing, errs ++ [url]) /\
  process_single_url env url errs = (Ret None, errs ++ [url]).
Proof.
  rewrite extract_episodes_and_name_spec, process_single_url_spec.
  unfold fetch_async, fetch_sync.
  intros [H|[(st & H)|[(st & H)|[(st & H)|[(st & H)|(st & h & H & Hnums)]]]]];
    rewrite H; cbn [infer PyStr.nonempty].
  - split; reflexivity.
  - destruct (st =? 200); destruct (json_content_type env url);
      destruct ((400 <=? st) && (st <? 600)); split; reflexivity.
  - destruct (st =? 200); destruct (json_content_type env url);
      destruct ((400 <=? st) && (st <? 600)); split; reflexivity.
  - destruct (st =? 200); destruct (json_content_type env url);
      destruct ((400 <=? st) && (st <? 600)); split; reflexivity.
  - destruct (st =? 200); destruct (json_content_type env url);
      destruct ((400 <=? st) && (st <? 600)); split; reflexivity.
  - rewrite Hnums.
    destruct (st =? 200); destruct (json_content_type env url);
      destruct ((400 <=? st) && (st <? 600));
      destruct (PyStr.nonempty h); split; reflexivity.
Qed.

Lemma fetch_failure_paths_witness :
  let env := demo_env 200 markup_not_numeric items_not_numeric (OracleResults [])
               false no_delay in
  AnimeExtractor.extract_episodes_and_name env (listing_url 7) [] =
    (Ret AnimeExtractor.nothing, [listing_url 7]) /\
  process_single_url env (listing_url 7) [] = (Ret None, [listing_url 7]).
Proof.
  intros env. apply (fetch_failure_paths env (listing_url 7) []).
  do 5 right. exists 200, markup_not_numeric. split; reflexivity.
Defined.

(** ** the inferred range is the minimum and the maximum *)

Lemma fold_min_In (r : list Z) : forall x, In (fold_left Z.min r x) (x :: r).
Proof.
  induction r as [|y r IH]; intros x; cbn; [now left|].
  destruct (IH (Z.min x y)) as [H|H]; [|right; now right].
  rewrite <- H. destruct (Z.min_spec x y) as [[_ ->]|[_ ->]]; [now left|right; now left].
Qed.

Lemma fold_max_In (r : list Z) : forall x, In (fold_left Z.max r x) (x :: r).
Proof.
  induction r as [|y r IH]; intros x; cbn; [now left|].
  destruct (IH (Z.max x y)) as [H|H]; [|right; now right].
  rewrite <- H. destruct (Z.max_spec x y) as [[_ ->]|[_ ->]]; [right; now left|now left].
Qed.

(** X7.  The pair delivered by range inference consists of two identifiers that
    are present in the listing, and every numeric identifier of the listing
    lies between them, whatever the order of the items. *)
Theorem range_is_min_and_max {S} (ep_items : list EpItem) (s s' : S) (f l : Z) :
  first_last (episode_numbers_of ep_items) s = (Ret (f, l), s') ->
  In f (episode_numbers_of ep_items) /\
  In l (episode_numbers_of ep_items) /\
  (forall n, In n (episode_numbers_of ep_items) -> f <= n <= l).
Proof.
  destruct (episode_numbers_of ep_items) as [|n rest].
  - rewrite first_last_nil. discriminate.
  - rewrite first_last_cons. intros H. injection H as <- <- _.
    split; [apply fold_min_In|]. split; [apply fold_max_In|].
    intros k Hk. split; [now apply fold_min_lower|now apply fold_max_upper].
Qed.

Lemma range_is_min_and_max_witness :
  In 3 (episode_numbers_of items_three) /\
  In 7 (episode_numbers_of items_three) /\
  (forall n, In n (episode_numbers_of items_three) -> 3 <= n <= 7).
Proof.
  apply (range_is_min_and_max items_three (@nil string) (@nil string) 3 7).
  reflexivity.
Defined.

(** ** the batch size at its bounds *)

Lemma process_urls_async_zero (env : Env) (self : AnimeExtractor.Self)
    (urls errs : list string) :
  AnimeExtractor.max_workers self = 0 ->
  AnimeExtractor.process_urls_async env self urls errs = (Raise ValueError, errs).
Proof.
  intros H. unfold AnimeExtractor.process_urls_async, AnimeExtractor.py_range0.
  rewrite H. reflexivity.
Qed.

Lemma process_urls_async_negative (env : Env) (self : AnimeExtractor.Self)
    (urls errs : list string) :
  AnimeExtractor.max_workers self < 0 ->
  AnimeExtractor.process_urls_async env self urls errs = (Ret [], errs).
Proof.
  intros H. unfold AnimeExtractor.process_urls_async, AnimeExtractor.py_range0.
  destruct (Z.eqb_spec (AnimeExtractor.max_workers self) 0); [lia|].
  destruct (Z.ltb_spec (AnimeExtractor.max_workers self) 0); [reflexivity|lia].
Qed.

(** X8.  With [max_workers = 0] the orchestrator raises [ValueError] before any
    request is made; with a negative [max_workers] it makes no request and
    returns the empty list, leaving [error_urls] alone; with a positive one
    it never raises. *)
Theorem max_workers_bounds (env : Env) (self : AnimeExtractor.Self)
    (urls errs : list string) :
  (AnimeExtractor.max_workers self = 0 ->
   AnimeExtractor.process_urls_async env self urls errs = (Raise ValueError, errs)) /\
  (AnimeExtractor.max_workers self < 0 ->
   AnimeExtractor.process_urls_async env self urls errs = (Ret [], errs)) /\
  (0 < AnimeExtractor.max_workers self ->
   exists records errs',
     AnimeExtractor.process_urls_async env self urls errs = (Ret records, errs')).
Proof.
  split; [apply process_urls_async_zero|]. split; [apply process_urls_async_negative|].
  intros H. rewrite process_urls_async_spec by assumption. eauto.
Qed.

Lemma max_workers_bounds_witness :
  let env := demo_env 200 markup_single items_single (OracleResults []) false no_delay in
  let self := {| AnimeExtractor.api_key := "key"; AnimeExtractor.max_workers := -1 |} in
  AnimeExtractor.process_urls_async env self [listing_url 1] [] = (Ret [], []).
Proof.
  intros env self.
  apply (proj1 (proj2 (max_workers_bounds env self [listing_url 1] []))).
  reflexivity.
Defined.

(** ** the failure list of the asynchronous run *)

Lemma async_failed_run (env : Env) (u : string) :
  async_failed env u = true <->
  fst (AnimeExtractor.extract_episodes_and_name env u []) = Ret AnimeExtractor.nothing.
Proof.
  rewrite extract_episodes_and_name_spec. unfold async_failed.
  destruct (fetch_async env u) as [[[f l] nm]|]; cbn; split; intros H;
    try reflexivity; discriminate.
Qed.

(** X9.  After a run with a positive batch size, [error_urls] is its former
    content followed by exactly the submitted URLs whose fetch delivered the
    empty result: batch after batch, and within a batch in the order in
    which the answers arrived, which need not be the order of submission.
    Nothing is removed, and distinct submitted URLs give distinct
    entries. *)
Theorem async_failure_list (env : Env) (self : AnimeExtractor.Self)
    (urls errs : list string) :
  0 < AnimeExtractor.max_workers self ->
  exists failed,
    snd (AnimeExtractor.process_urls_async env self urls errs) = errs ++ failed /\
    failed = filter (async_failed env) (async_arrivals env self urls) /\
    Permutation failed (filter (async_failed env) urls) /\
    (forall u, In u failed <->
               In u urls /\
               fst (AnimeExtractor.extract_episodes_and_name env u []) =
                 Ret AnimeExtractor.nothing) /\
    (NoDup urls -> NoDup failed).
Proof.
  intros Hpos. exists (filter (async_failed env) (async_arrivals env self urls)).
  rewrite process_urls_async_spec by assumption. cbn [snd].
  pose proof (async_arrivals_perm env self urls Hpos) as Hperm.
  split; [reflexivity|]. split; [reflexivity|].
  split; [now apply Permutation_filter|]. split.
  - intros u. rewrite filter_In, async_failed_run. split.
    + intros [Hin Hf]. split; [now apply (Permutation_in _ Hperm)|exact Hf].
    + intros [Hin Hf]. split; [now apply (Permutation_in _ (Permutation_sym Hperm))|exact Hf].
  - intros Hnd. apply NoDup_filter.
    now apply (Permutation_NoDup (Permutation_sym Hperm)).
Qed.

Lemma async_failure_list_witness :
  exists failed,
    snd (AnimeExtractor.process_urls_async refusing_env demo_self
           [listing_url 1; listing_url 10] []) = [] ++ failed /\
    failed = filter (async_failed refusing_env)
               (async_arrivals refusing_env demo_self [listing_url 1; listing_url 10]) /\
    Permutation failed (filter (async_failed refusing_env) [listing_url 1; listing_url 10]) /\
    (forall u, In u failed <->
               In u [listing_url 1; listing_url 10] /\
               fst (AnimeExtractor.extract_episodes_and_name refusing_env u []) =
                 Ret AnimeExtractor.nothing) /\
    (NoDup [listing_url 1; listing_url 10] -> NoDup failed).
Proof.
  apply (async_failure_list refusing_env demo_self [listing_url 1; listing_url 10] []).
  reflexivity.
Defined.

(** The answer to the second URL arrives first: its entry comes first. *)
Example async_failures_in_arrival_order :
  snd (AnimeExtractor.process_urls_async refusing_env demo_self
         [listing_url 1; listing_url 10] []) = [listing_url 10; listing_url 1].
Proof. reflexivity. Qed.

(** ** records and failures never exceed the submissions *)

Lemma async_emit_not_failed (env : Env) (self : AnimeExtractor.Self) (u : string) :
  async_emit env self u <> None -> async_failed env u = false.
Proof.
  unfold async_emit, async_failed.
  destruct (fetch_async env u) as [[[f l] nm]|]; [reflexivity|]. intros H. now elim H.
Qed.

Lemma emitted_plus_failed (env : Env) (self : AnimeExtractor.Self) (urls : list string) :
  (List.length (omap (async_emit env self) urls) +
   List.length (filter (async_failed env) urls) <= List.length urls)%nat.
Proof.
  induction urls as [|u urls IH]; [reflexivity|].
  cbn [omap filter List.length].
  destruct (async_emit env self u) eqn:He.
  - rewrite (async_emit_not_failed env self u) by (rewrite He; discriminate).
    cbn [List.length]. lia.
  - destruct (async_failed env u); cbn [List.length]; lia.
Qed.

(** X10.  In the asynchronous run no URL yields both a record and a failure
    entry: the number of records plus the number of new entries of
    [error_urls] never exceeds the number of submitted URLs. *)
Theorem async_records_and_failures_bounded (env : Env) (self : AnimeExtractor.Self)
    (urls errs : list string) (records : list SeriesRecord) (errs' : list string) :
  AnimeExtractor.process_urls_async env self urls errs = (Ret records, errs') ->
  exists failed,
    errs' = errs ++ failed /\
    (List.length records + List.length failed <= List.length urls)%nat.
Proof.
  intros Hrun.
  destruct (Z.ltb_spec 0 (AnimeExtractor.max_workers self)) as [Hpos|Hle].
  - rewrite process_urls_async_spec in Hrun by assumption. injection Hrun as <- <-.
    eexists. split; [reflexivity|]. rewrite number_from_length.
    rewrite (Permutation_length
               (Permutation_filter (async_failed env) _ _
                  (async_arrivals_perm env self urls Hpos))).
    apply emitted_plus_failed.
  - destruct (Z.eqb_spec (AnimeExtractor.max_workers self) 0) as [H0|Hne].
    + rewrite (process_urls_async_zero env self urls errs H0) in Hrun. discriminate.
    + rewrite (process_urls_async_negative env self urls errs) in Hrun by lia.
      injection Hrun as <- <-. exists []. rewrite app_nil_r. split; [reflexivity|cbn; lia].
Qed.

Lemma async_records_and_failures_bounded_witness :
  let env := demo_env 200 markup_no_link items_no_link (OracleResults []) false no_delay in
  exists failed : list string,
    [] = [] ++ failed /\
    (List.length (@nil SeriesRecord) + List.length failed
     <= List.length [listing_url 1])%nat.
Proof.
  intros env.
  apply (async_records_and_failures_bounded env demo_self [listing_url 1] [] [] []).
  reflexivity.
Defined.

(** ** the failure list of the thread-pool run *)

Lemma Permutation_omap {A B} (f : A -> option B) (xs ys : list A) :
  Permutation xs ys -> Permutation (omap f xs) (omap f ys).
Proof.
  induction 1 as [|x xs ys _ IH|x y xs|xs ys zs _ IH1 _ IH2]; cbn [omap].
  - constructor.
  - destruct (f x); [now constructor|exact IH].
  - destruct (f x), (f y); try reflexivity. apply perm_swap.
  - now transitivity (omap f ys).
Qed.

Lemma omap_omap {A B C} (g : A -> option B) (f : B -> option C) (xs : list A) :
  omap f (omap g xs) =
  omap (fun x => match g x with Some y => f y | None => None end) xs.
Proof.
  induction xs as [|x xs IH]; [reflexivity|]. cbn [omap].
  destruct (g x) as [y|]; [|exact IH]. cbn [omap]. destruct (f y); now rewrite IH.
Qed.

Lemma omap_select_NoDup {A} (g : A -> option A) (xs : list A) :
  (forall x y, g x = Some y -> y = x) -> NoDup xs -> NoDup (omap g xs).
Proof.
  intros Hsel Hnd. induction Hnd as [|x xs Hnotin Hnd IH]; cbn [omap]; [constructor|].
  destruct (g x) as [y|] eqn:Hg; [|exact IH].
  apply Hsel in Hg. subst y. constructor; [|exact IH].
  intros Hin. apply omap_In in Hin. destruct Hin as (z & Hz & Hgz).
  apply Hsel in Hgz. now subst z.
Qed.

Lemma submit_lookup (env : Env) (key url : string) (nm : option string) :
  submit env url (get_tmdb_info_sync env nm key) =
  if result_raises env url then Raise TimeoutError
  else Ret (match fst (tmdb_lookup env key nm []) with
            | Ret m => m
            | Raise _ => unknown_anime
            end).
Proof.
  unfold submit, get_tmdb_info_sync. destruct (result_raises env url); [reflexivity|].
  destruct (tmdb_lookup_returns env key nm []) as (m & log' & ->). reflexivity.
Qed.

Lemma sync_raised_task (env : Env) (key u v : string) :
  match sync_task env key u with
  | Some t => sync_raised t
  | None => None
  end = Some v <->
  v = u /\ (exists r, fst (process_single_url env u []) = Ret (Some r)) /\
  result_raises env u = true.
Proof.
  rewrite process_single_url_spec. unfold sync_task.
  destruct (fetch_sync env u) as [[[f l] nm]|]; cbn [fst].
  - rewrite submit_lookup. unfold sync_raised, task_url. cbn [fst snd].
    destruct (result_raises env u); split.
    + intros H. injection H as <-. eauto.
    + intros (-> & _ & _). reflexivity.
    + discriminate.
    + intros (_ & _ & H). discriminate.
  - split; [discriminate|]. intros (_ & (r & H) & _). discriminate.
Qed.

Lemma sync_failure_entries (env : Env) (key : string) (urls errs : list string)
    (records : list SeriesRecord) (errs' : list string) :
  fast_sync_version env key urls errs = (Ret records, errs') ->
  exists fetch_failed pool_failed,
    errs' = errs ++ fetch_failed ++ pool_failed /\
    fetch_failed = filter (sync_failed env) (schedule (arrival_time env) urls) /\
    Permutation fetch_failed (filter (sync_failed env) urls) /\
    (forall u, In u fetch_failed <->
               In u urls /\ fst (process_single_url env u []) = Ret None) /\
    (forall u, In u pool_failed <->
               In u urls /\
               (exists r, fst (process_single_url env u []) = Ret (Some r)) /\
               result_raises env u = true) /\
    (NoDup urls -> NoDup (fetch_failed ++ pool_failed)).
Proof.
  rewrite fast_sync_version_spec. cbv zeta. intros H. injection H as _ <-.
  set (tasks := omap (sync_task env key) urls).
  set (arrived := schedule (arrival_time env) urls).
  assert (Harr : Permutation arrived urls) by apply schedule_perm.
  exists (filter (sync_failed env) arrived), (omap sync_raised (as_completed env tasks)).
  assert (Hfetch : forall u, In u (filter (sync_failed env) arrived) <->
                             In u urls /\ fst (process_single_url env u []) = Ret None).
  { intros u. rewrite filter_In, process_single_url_spec. unfold sync_failed.
    destruct (fetch_sync env u) as [[[f l] nm]|]; cbn; split; intros [H1 H2];
      try discriminate; (split; [|reflexivity]).
    - now apply (Permutation_in _ Harr).
    - now apply (Permutation_in _ (Permutation_sym Harr)). }
  assert (Hperm : Permutation (omap sync_raised (as_completed env tasks))
                              (omap sync_raised tasks)).
  { apply Permutation_omap, as_completed_perm. }
  assert (Hpool : forall u, In u (omap sync_raised (as_completed env tasks)) <->
                            In u urls /\
                            (exists r, fst (process_single_url env u []) = Ret (Some r)) /\
                            result_raises env u = true).
  { intros u. split.
    - intros Hin. apply (Permutation_in _ Hperm) in Hin.
      unfold tasks in Hin. rewrite omap_omap in Hin. apply omap_In in Hin.
      destruct Hin as (x & Hx & Hsel). apply sync_raised_task in Hsel.
      destruct Hsel as (-> & Hr & Hraise). auto.
    - intros (Hin & Hr & Hraise).
      apply (Permutation_in _ (Permutation_sym Hperm)).
      unfold tasks. rewrite omap_omap. apply omap_In. exists u. split; [assumption|].
      apply sync_raised_task. auto. }
  split; [reflexivity|]. split; [reflexivity|].
  split; [now apply Permutation_filter|]. split; [exact Hfetch|].
  split; [exact Hpool|].
  intros Hnd. apply NoDup_app.
  - apply NoDup_filter. now apply (Permutation_NoDup (Permutation_sym Harr)).
  - apply (Permutation_NoDup (Permutation_sym Hperm)).
    unfold tasks. rewrite omap_omap. apply omap_select_NoDup; [|assumption].
    intros x y Hsel. now apply sync_raised_task in Hsel.
  - intros u Hu1 Hu2. apply Hfetch in Hu1. apply Hpool in Hu2.
    destruct Hu1 as [_ Hnone]. destruct Hu2 as (_ & (r & Hsome) & _).
    rewrite Hnone in Hsome. discriminate.
Qed.

(** X11.  After a thread-pool run, [error_urls] is its former content,
    followed by the submitted URLs whose fetch failed, in the order in which
    the worker threads reached their verdict (which need not be the order
    of submission), followed by the URLs whose fetch succeeded but whose
    enrichment result could not be retrieved; with distinct submitted URLs
    no URL occurs twice among the new entries. *)
Theorem sync_failure_list (env : Env) (key : string) (urls errs : list string)
    (records : list SeriesRecord) (errs' : list string) :
  fast_sync_version env key urls errs = (Ret records, errs') ->
  exists fetch_failed pool_failed,
    errs' = errs ++ fetch_failed ++ pool_failed /\
    fetch_failed = filter (sync_failed env) (schedule (arrival_time env) urls) /\
    Permutation fetch_failed (filter (sync_failed env) urls) /\
    (forall u, In u fetch_failed <->
               In u urls /\ fst (process_single_url env u []) = Ret None) /\
    (forall u, In u pool_failed <->
               In u urls /\
               (exists r, fst (process_single_url env u []) = Ret (Some r)) /\
               result_raises env u = true) /\
    (NoDup urls -> NoDup (fetch_failed ++ pool_failed)).
Proof. apply sync_failure_entries. Qed.

Lemma sync_failure_list_witness :
  exists fetch_failed pool_failed,
    [listing_url 10; listing_url 1] = [] ++ fetch_failed ++ pool_failed /\
    fetch_failed = filter (sync_failed refusing_env)
                     (schedule (arrival_time refusing_env) [listing_url 1; listing_url 10]) /\
    Permutation fetch_failed (filter (sync_failed refusing_env) [listing_url 1; listing_url 10]) /\
    (forall u, In u fetch_failed <->
               In u [listing_url 1; listing_url 10] /\
               fst (process_single_url refusing_env u []) = Ret None) /\
    (forall u, In u pool_failed <->
               In u [listing_url 1; listing_url 10] /\
               (exists r, fst (process_single_url refusing_env u []) = Ret (Some r)) /\
               result_raises refusing_env u = true) /\
    (NoDup [listing_url 1; listing_url 10] -> NoDup (fetch_failed ++ pool_failed)).
Proof.
  apply (sync_failure_list refusing_env "key" [listing_url 1; listing_url 10] [] []
           [listing_url 10; listing_url 1]).
  reflexivity.
Defined.

(** ** records without a name token in the thread-pool run *)

(** X12.  The thread-pool orchestrator keeps a listing without a name token: the
    record it emits has no name, the sentinel title, and neither catalog id
    nor year. *)
Theorem sync_nameless_records (env : Env) (key : string) (urls errs : list string)
    (records : list SeriesRecord) (errs' : list string) (r : SeriesRecord) :
  fast_sync_version env key urls errs = (Ret records, errs') ->
  In r records ->
  name r = None ->
  title r = "Unknown Anime" /\ tmdb_id r = None /\ year r = None.
Proof.
  rewrite fast_sync_version_spec. cbv zeta. intros Hrun Hin Hname.
  injection Hrun as <- _.
  destruct (number_from_In _ _ _ Hin) as (j & p & Hp & ->).
  apply omap_In in Hp. destruct Hp as (t & Ht & Hpay).
  apply (Permutation_in _ (as_completed_perm env _)) in Ht.
  apply omap_In in Ht. destruct Ht as (url & Hurl & Htask).
  unfold sync_task in Htask.
  destruct (fetch_sync env url) as [[[f l] nm]|]; [|discriminate].
  injection Htask as <-. rewrite submit_lookup in Hpay. cbn in Hpay.
  destruct (result_raises env url); [discriminate|].
  injection Hpay as <-. cbn in Hname. subst nm. cbn. auto.
Qed.

Lemma sync_nameless_records_witness :
  let env := demo_env 200 markup_no_link items_no_link (OracleResults []) false no_delay in
  let r := entry_of 0 (5, 5, None, unknown_anime) in
  title r = "Unknown Anime" /\ tmdb_id r = None /\ year r = None.
Proof.
  intros env r.
  apply (sync_nameless_records env "key" [listing_url 1] [] [r] [] r).
  - reflexivity.
  - left. reflexivity.
  - reflexivity.
Defined.

(** ** the batches *)

(** X13.  With a positive batch size the outer loop walks through
    [ceil(len / max_workers)] batches; none is empty, none is longer than
    [max_workers], and laid end to end they give back the URL list. *)
Theorem batches_partition (self : AnimeExtractor.Self) (urls : list string)
    (starts : list Z) :
  0 < AnimeExtractor.max_workers self ->
  AnimeExtractor.py_range0 (Z.of_nat (List.length urls)) (AnimeExtractor.max_workers self)
    = Some starts ->
  List.concat (batches_of self urls starts) = urls /\
  Z.of_nat (List.length (batches_of self urls starts)) =
    (Z.of_nat (List.length urls) + AnimeExtractor.max_workers self - 1)
      / AnimeExtractor.max_workers self /\
  (forall b, In b (batches_of self urls starts) ->
             (1 <= List.length b)%nat /\
             Z.of_nat (List.length b) <= AnimeExtractor.max_workers self).
Proof.
  intros Hpos Hrange. split; [now apply batches_cover|].
  unfold AnimeExtractor.py_range0 in Hrange.
  destruct (Z.eqb_spec (AnimeExtractor.max_workers self) 0) as [|_]; [lia|].
  destruct (Z.ltb_spec (AnimeExtractor.max_workers self) 0) as [|_]; [lia|].
  injection Hrange as <-.
  set (w := AnimeExtractor.max_workers self) in *.
  set (len := Z.of_nat (List.length urls)).
  assert (Hcount : 0 <= (len + w - 1) / w) by (apply Z.div_pos; lia).
  unfold batches_of. split.
  - rewrite !length_map, length_seq, Z2Nat.id; lia.
  - intros b Hb. apply in_map_iff in Hb. destruct Hb as (i & <- & Hi).
    apply in_map_iff in Hi. destruct Hi as (k & <- & Hk). apply in_seq in Hk.
    assert (Hk' : Z.of_nat k < (len + w - 1) / w) by lia.
    assert (Hlt : Z.of_nat k * w < len).
    { pose proof (Z.div_mod (len + w - 1) w ltac:(lia)) as Hdm.
      pose proof (Z.mod_pos_bound (len + w - 1) w Hpos). nia. }
    unfold AnimeExtractor.slice. fold w.
    rewrite length_firstn, length_skipn.
    replace (Z.of_nat k * w + w - Z.of_nat k * w) with w by lia.
    subst len. split; lia.
Qed.

Lemma batches_partition_witness :
  let self := {| AnimeExtractor.api_key := "key"; AnimeExtractor.max_workers := 2 |} in
  let urls := listing_urls 1 6 in
  List.concat (batches_of self urls [0; 2; 4]) = urls /\
  Z.of_nat (List.length (batches_of self urls [0; 2; 4])) =
    (Z.of_nat (List.length urls) + AnimeExtractor.max_workers self - 1)
      / AnimeExtractor.max_workers self /\
  (forall b, In b (batches_of self urls [0; 2; 4]) ->
             (1 <= List.length b)%nat /\
             Z.of_nat (List.length b) <= AnimeExtractor.max_workers self).
Proof.
  intros self urls. apply (batches_partition self urls [0; 2; 4]).
  - reflexivity.
  - reflexivity.
Defined.

(** ** what the enricher returns *)

Lemma lookup_nonempty (nm : string) : nm <> EmptyString -> PyStr.nonempty nm = true.
Proof. destruct nm; [contradiction|reflexivity]. Qed.

(** X14.  Every failure of the catalog request (transport error, error status,
    body that is not JSON, missing [results] member), an empty result list
    and a first candidate without an id all give the same value: no id, no
    year, and the title-cased normalised name as title. *)
Theorem enricher_degrades_uniformly (env : Env) (self : AnimeExtractor.Self)
    (nm : string) (log : list string) :
  nm <> EmptyString ->
  (tmdb_search env (AnimeExtractor.api_key self) (clean nm) = OracleTransportError \/
   tmdb_search env (AnimeExtractor.api_key self) (clean nm) = OracleHttpError \/
   tmdb_search env (AnimeExtractor.api_key self) (clean nm) = OracleNotJson \/
   tmdb_search env (AnimeExtractor.api_key self) (clean nm) = OracleNoResultsKey \/
   tmdb_search env (AnimeExtractor.api_key self) (clean nm) = OracleResults [] \/
   (exists c rest,
       tmdb_search env (AnimeExtractor.api_key self) (clean nm) = OracleResults (c :: rest) /\
       cand_id c = None)) ->
  fst (AnimeExtractor.get_tmdb_info_sync env self (Some nm) log) =
    Ret {| cm_tmdb_id := None; cm_year := None; cm_title := PyStr.title (clean nm) |} /\
  fst (get_tmdb_info_sync env (Some nm) (AnimeExtractor.api_key self) log) =
    Ret {| cm_tmdb_id := None; cm_year := None; cm_title := PyStr.title (clean nm) |}.
Proof.
  intros Hne Hcase.
  unfold AnimeExtractor.get_tmdb_info_sync, get_tmdb_info_sync.
  rewrite tmdb_lookup_nonempty by now apply lookup_nonempty.
  destruct Hcase as [H|[H|[H|[H|[H|(c & rest & H & Hid)]]]]]; rewrite H; cbn [fst]; auto.
  rewrite match_of_candidate_cases, Hid. cbn [fst]. auto.
Qed.

Lemma enricher_degrades_uniformly_witness :
  let c := {| cand_id := None; cand_first_air_date := Some "1999-10-20";
              cand_name := Some "One Piece" |} in
  let env := demo_env 200 markup_single items_single (OracleResults [c]) false no_delay in
  fst (AnimeExtractor.get_tmdb_info_sync env demo_self (Some "one-piece-12?") []) =
    Ret {| cm_tmdb_id := None; cm_year := None; cm_title := "One Piece" |} /\
  fst (get_tmdb_info_sync env (Some "one-piece-12?") (AnimeExtractor.api_key demo_self) []) =
    Ret {| cm_tmdb_id := None; cm_year := None; cm_title := "One Piece" |}.
Proof.
  intros c env.
  apply (enricher_degrades_uniformly env demo_self "one-piece-12?" []).
  - discriminate.
  - do 5 right. exists c, []. split; reflexivity.
Defined.

(** X15.  Only the first candidate counts: two catalogs whose answers to the
    normalised query start with the same candidate give the same match and
    log the same query, whatever follows in the result lists. *)
Theorem enricher_uses_first_candidate (env env' : Env) (self : AnimeExtractor.Self)
    (nm : string) (log : list string) (c : Candidate) (rest rest' : list Candidate) :
  tmdb_search env (AnimeExtractor.api_key self) (clean nm) = OracleResults (c :: rest) ->
  tmdb_search env' (AnimeExtractor.api_key self) (clean nm) = OracleResults (c :: rest') ->
  AnimeExtractor.get_tmdb_info_sync env self (Some nm) log =
  AnimeExtractor.get_tmdb_info_sync env' self (Some nm) log.
Proof.
  intros H H'. unfold AnimeExtractor.get_tmdb_info_sync.
  destruct (PyStr.nonempty nm) eqn:Hne.
  - rewrite !tmdb_lookup_nonempty by assumption. now rewrite H, H'.
  - rewrite !tmdb_lookup_falsy by (cbn; assumption). reflexivity.
Qed.

Lemma enricher_uses_first_candidate_witness :
  let c := {| cand_id := Some 1; cand_first_air_date := None; cand_name := Some "A" |} in
  let d := {| cand_id := Some 2; cand_first_air_date := None; cand_name := Some "B" |} in
  let env := demo_env 200 markup_single items_single (OracleResults [c]) false no_delay in
  let env' := demo_env 200 markup_single items_single (OracleResults [c; d]) false no_delay in
  AnimeExtractor.get_tmdb_info_sync env demo_self (Some "a?") [] =
  AnimeExtractor.get_tmdb_info_sync env' demo_self (Some "a?") [].
Proof.
  intros c d env env'.
  apply (enricher_uses_first_candidate env env' demo_self "a?" [] c [] [d]); reflexivity.
Defined.

(** X16.  The year and the id of a match come from the first candidate
    only: a match carries a year only when the catalog returned a first
    candidate whose first-air date, up to its first dash, reads as that
    integer, and it carries an id only when that first candidate has that
    id. *)
Theorem year_and_id_from_first_candidate (env : Env) (self : AnimeExtractor.Self)
    (anime_name : option string) (log : list string) (m : CatalogMatch)
    (log' : list string) :
  AnimeExtractor.get_tmdb_info_sync env self anime_name log = (Ret m, log') ->
  (forall y, cm_year m = Some y ->
             exists nm c rest d,
               anime_name = Some nm /\
               tmdb_search env (AnimeExtractor.api_key self) (clean nm)
                 = OracleResults (c :: rest) /\
               cand_first_air_date c = Some d /\
               PyStr.int (PyStr.split_dash_head d) = Some y) /\
  (forall i, cm_tmdb_id m = Some i ->
             exists nm c rest,
               anime_name = Some nm /\
               tmdb_search env (AnimeExtractor.api_key self) (clean nm)
                 = OracleResults (c :: rest) /\
               cand_id c = Some i).
Proof.
  unfold AnimeExtractor.get_tmdb_info_sync.
  destruct (truthy_str anime_name) eqn:Ht.
  - destruct anime_name as [nm|]; [|discriminate]. cbn in Ht.
    rewrite tmdb_lookup_nonempty by assumption. intros H. injection H as <- _.
    destruct (tmdb_search env (AnimeExtractor.api_key self) (clean nm))
      as [| | | |[|c rest]] eqn:Hs;
      try (cbn; split; intros ?; discriminate).
    rewrite match_of_candidate_cases.
    destruct (cand_id c) as [i|] eqn:Hid;
      [|cbn; split; intros ?; discriminate].
    cbv zeta.
    destruct (cand_first_air_date c) as [d|] eqn:Hd;
      [destruct (PyStr.nonempty d);
       [destruct (PyStr.int (PyStr.split_dash_head d)) as [y|] eqn:Hy|]|];
      cbn; split; try (intros ?; discriminate).
    + intros y' H. injection H as <-. exists nm, c, rest, d. auto.
    + intros i' H. injection H as <-. exists nm, c, rest. auto.
    + intros i' H. injection H as <-. exists nm, c, rest. auto.
    + intros i' H. injection H as <-. exists nm, c, rest. auto.
  - rewrite tmdb_lookup_falsy by assumption. intros H. injection H as <- _.
    cbn. split; intros ?; discriminate.
Qed.

Lemma year_and_id_from_first_candidate_witness :
  let c := {| cand_id := Some 37854; cand_first_air_date := Some "1999-10-20";
              cand_name := Some "One Piece" |} in
  let env := demo_env 200 markup_single items_single (OracleResults [c]) false no_delay in
  exists nm c' rest d,
    Some "one-piece-12?" = Some nm /\
    tmdb_search env (AnimeExtractor.api_key demo_self) (clean nm) = OracleResults (c' :: rest) /\
    cand_first_air_date c' = Some d /\
    PyStr.int (PyStr.split_dash_head d) = Some 1999.
Proof.
  intros c env.
  apply (proj1 (year_and_id_from_first_candidate env demo_self (Some "one-piece-12?") []
                  {| cm_tmdb_id := Some 37854; cm_year := Some 1999;
                     cm_title := "One Piece" |}
                  ["one piece"] eq_refl) 1999).
  reflexivity.
Defined.

(** ** the query sent to the catalog *)

Lemma contains_dash_In (s : string) :
  contains_dash s = true <-> In "-"%char (list_ascii_of_string s).
Proof.
  induction s as [|c s IH]; cbn; [split; [discriminate|tauto]|].
  rewrite orb_true_iff, IH. destruct (Ascii.eqb_spec c "-") as [->|Hne]; split; auto.
  - intros [H|H]; [discriminate|auto].
  - intros [H|H]; [contradiction|auto].
Qed.

Lemma contains_dash_rev (s : string) :
  contains_dash (PyStr.rev_string s) = true -> contains_dash s = true.
Proof.
  rewrite !contains_dash_In. unfold PyStr.rev_string.
  rewrite list_ascii_of_string_of_list_ascii. intros H. now apply in_rev.
Qed.

Lemma contains_dash_lstrip (s : string) :
  contains_dash (PyStr.lstrip s) = true -> contains_dash s = true.
Proof.
  induction s as [|c s IH]; cbn; [trivial|].
  destruct (PyStr.is_space c); [|trivial]. intros H. rewrite (IH H). apply orb_true_r.
Qed.

Lemma contains_dash_strip (s : string) :
  contains_dash s = false -> contains_dash (PyStr.strip s) = false.
Proof.
  intros H. destruct (contains_dash (PyStr.strip s)) eqn:Hs; [|reflexivity].
  unfold PyStr.strip, PyStr.rstrip in Hs.
  apply contains_dash_rev, contains_dash_lstrip, contains_dash_rev,
    contains_dash_lstrip in Hs. congruence.
Qed.

Lemma replace_dash_no_dash (s : string) : contains_dash (PyStr.replace_dash s) = false.
Proof.
  induction s as [|c s IH]; cbn; [reflexivity|]. rewrite IH.
  destruct (Ascii.eqb_spec c "-") as [->|Hne]; [reflexivity|].
  destruct (Ascii.eqb_spec c "-"); [contradiction|reflexivity].
Qed.

Lemma lstrip_not_space (s : string) : not_space (first_char (PyStr.lstrip s)).
Proof.
  induction s as [|c s IH]; cbn; [trivial|].
  destruct (PyStr.is_space c) eqn:Hc; [exact IH|]. cbn. exact Hc.
Qed.

Lemma lstrip_suffix (s : string) : exists w, s = String.append w (PyStr.lstrip s).
Proof.
  induction s as [|c s (w & IH)]; [now exists EmptyString|]. cbn.
  destruct (PyStr.is_space c).
  - exists (String c w). cbn. now rewrite <- IH.
  - now exists EmptyString.
Qed.

Lemma list_of_append (a b : string) :
  list_ascii_of_string (String.append a b) = list_ascii_of_string a ++ list_ascii_of_string b.
Proof. induction a as [|c a IH]; cbn; [reflexivity|now rewrite IH]. Qed.

Lemma string_of_app (a b : list ascii) :
  string_of_list_ascii (a ++ b) = String.append (string_of_list_ascii a) (string_of_list_ascii b).
Proof. induction a as [|c a IH]; cbn; [reflexivity|now rewrite IH]. Qed.

Lemma rev_string_append (a b : string) :
  PyStr.rev_string (String.append a b) =
  String.append (PyStr.rev_string b) (PyStr.rev_string a).
Proof.
  unfold PyStr.rev_string. now rewrite list_of_append, rev_app_distr, string_of_app.
Qed.

Lemma rstrip_prefix (s : string) : exists w, s = String.append (PyStr.rstrip s) w.
Proof.
  unfold PyStr.rstrip.
  destruct (lstrip_suffix (PyStr.rev_string s)) as (w & Hw).
  exists (PyStr.rev_string w).
  rewrite <- rev_string_append, <- Hw. symmetry. apply rev_string_involutive.
Qed.

(** What [strip] returns has no whitespace at either end. *)
Lemma strip_is_trimmed (s : string) :
  not_space (first_char (PyStr.strip s)) /\ not_space (last_char (PyStr.strip s)).
Proof.
  unfold PyStr.strip. split.
  - destruct (rstrip_prefix (PyStr.lstrip s)) as (w & Hw).
    pose proof (lstrip_not_space s) as Hfirst. rewrite Hw in Hfirst.
    destruct (PyStr.rstrip (PyStr.lstrip s)); [exact I|exact Hfirst].
  - unfold last_char, PyStr.rstrip. rewrite rev_string_involutive.
    apply lstrip_not_space.
Qed.

(** X17.  For a non-empty token exactly one query is sent to the catalog: the
    normalised name, which contains no dash and neither starts nor ends with
    whitespace. *)
Theorem enricher_query_normalised (env : Env) (self : AnimeExtractor.Self)
    (nm : string) (log : list string) :
  nm <> EmptyString ->
  snd (AnimeExtractor.get_tmdb_info_sync env self (Some nm) log) = log ++ [clean nm] /\
  snd (get_tmdb_info_sync env (Some nm) (AnimeExtractor.api_key self) log)
    = log ++ [clean nm] /\
  contains_dash (clean nm) = false /\
  not_space (first_char (clean nm)) /\
  not_space (last_char (clean nm)).
Proof.
  intros Hne. unfold AnimeExtractor.get_tmdb_info_sync, get_tmdb_info_sync.
  rewrite tmdb_lookup_nonempty by now apply lookup_nonempty.
  cbn [snd]. split; [reflexivity|]. split; [reflexivity|]. unfold clean. split.
  - apply contains_dash_strip, replace_dash_no_dash.
  - apply strip_is_trimmed.
Qed.

Lemma enricher_query_normalised_witness :
  let env := demo_env 200 markup_single items_single (OracleResults []) false no_delay in
  snd (AnimeExtractor.get_tmdb_info_sync env demo_self (Some " my-show-3?") [])
    = [] ++ [clean " my-show-3?"] /\
  snd (get_tmdb_info_sync env (Some " my-show-3?") (AnimeExtractor.api_key demo_self) [])
    = [] ++ [clean " my-show-3?"] /\
  contains_dash (clean " my-show-3?") = false /\
  not_space (first_char (clean " my-show-3?")) /\
  not_space (last_char (clean " my-show-3?")).
Proof.
  intros env. apply (enricher_query_normalised env demo_self " my-show-3?" []).
  discriminate.
Defined.

(** ** the shape of the name token *)

Lemma until_question_split (s : string) :
  exists post,
    s = String.append (PyStr.until_question s) post /\
    (post = EmptyString \/ first_char post = Some "?"%char) /\
    all_chars (fun c => negb (Ascii.eqb c "?")) (PyStr.until_question s) = true.
Proof.
  induction s as [|c s (post & Hs & Hpost & Hall)]; cbn.
  - exists EmptyString. auto.
  - destruct (Ascii.eqb_spec c "?") as [->|Hne].
    + exists (String "?" s). cbn. auto.
    + exists post. cbn. rewrite <- Hs, Hall.
      destruct (Ascii.eqb_spec c "?"); [contradiction|]. auto.
Qed.

Lemma substring_all (s : string) : substring 0 (String.length s) s = s.
Proof. induction s as [|c s IH]; cbn; [reflexivity|now rewrite IH]. Qed.

Lemma prefix_split (p s : string) :
  prefix p s = true ->
  s = String.append p (substring (String.length p) (String.length s - String.length p) s).
Proof.
  revert s. induction p as [|a p IH]; intros s H; cbn.
  - now rewrite Nat.sub_0_r, substring_all.
  - destruct s as [|b s]; [discriminate|]. cbn in H.
    destruct (ascii_dec a b) as [->|]; [|discriminate].
    cbn. f_equal. now apply IH.
Qed.

Lemma search_watch_shape (h g : string) :
  PyStr.search_watch h = Some g ->
  g <> EmptyString /\
  all_chars (fun c => negb (Ascii.eqb c "?")) g = true /\
  exists pre post,
    h = String.append pre (String.append "/watch/" (String.append g post)) /\
    (post = EmptyString \/ first_char post = Some "?"%char).
Proof.
  induction h as [|c h IH]; [discriminate|].
  cbn [PyStr.search_watch].
  destruct (prefix "/watch/" (String c h)) eqn:Hpre.
  - set (tail := substring 7 (String.length (String c h) - 7) (String c h)).
    destruct (PyStr.nonempty (PyStr.until_question tail)) eqn:Hne.
    + intros H. injection H as <-.
      destruct (until_question_split tail) as (post & Htail & Hpost & Hall).
      split; [destruct (PyStr.until_question tail); [discriminate|discriminate]|].
      split; [exact Hall|]. exists EmptyString, post. split; [|exact Hpost].
      cbn [String.append]. rewrite <- Htail. exact (prefix_split _ _ Hpre).
    + intros H. destruct (IH H) as (Hg & Hall & pre & post & Hh & Hpost).
      split; [exact Hg|]. split; [exact Hall|].
      exists (String c pre), post. split; [|exact Hpost]. cbn. f_equal. exact Hh.
  - cbn [PyStr.nonempty]. intros H.
    destruct (IH H) as (Hg & Hall & pre & post & Hh & Hpost).
    split; [exact Hg|]. split; [exact Hall|].
    exists (String c pre), post. split; [|exact Hpost]. cbn. f_equal. exact Hh.
Qed.

(** X18.  A name token, when there is one, comes from the [href] of the first
    item's anchor: it is a non-empty run of characters other than the
    question mark that follows [/watch/] in the link and stops at the first
    question mark or at the end, with one question mark appended. *)
Theorem name_token_shape (ep_items : list EpItem) (nm : string) :
  anime_name_of ep_items = Some nm ->
  exists item rest a h g pre post,
    ep_items = item :: rest /\ first_a item = Some a /\ href a = Some h /\
    h = String.append pre (String.append "/watch/" (String.append g post)) /\
    (post = EmptyString \/ first_char post = Some "?"%char) /\
    g <> EmptyString /\
    all_chars (fun c => negb (Ascii.eqb c "?")) g = true /\
    nm = String.append g "?".
Proof.
  unfold anime_name_of. destruct ep_items as [|item rest]; [discriminate|].
  destruct (first_a item) as [a|] eqn:Ha; [|discriminate].
  destruct (href a) as [h|] eqn:Hh; [|discriminate].
  destruct (PyStr.nonempty h); [|discriminate].
  destruct (PyStr.search_watch h) as [g|] eqn:Hs; [|discriminate].
  intros H. injection H as <-.
  destruct (search_watch_shape h g Hs) as (Hg & Hall & pre & post & Hsplit & Hpost).
  exists item, rest, a, h, g, pre, post. auto 10.
Qed.

Lemma name_token_shape_witness :
  exists item rest a h g pre post,
    items_single = item :: rest /\ first_a item = Some a /\ href a = Some h /\
    h = String.append pre (String.append "/watch/" (String.append g post)) /\
    (post = EmptyString \/ first_char post = Some "?"%char) /\
    g <> EmptyString /\
    all_chars (fun c => negb (Ascii.eqb c "?")) g = true /\
    "some-show-12?" = String.append g "?".
Proof.
  apply (name_token_shape items_single "some-show-12?"). reflexivity.
Defined.

(** ** the helper of the single-episode test *)

Lemma episode_numbers_strict_agrees (ep_items : list EpItem) (nums : list Z) :
  episode_numbers_strict ep_items = Some nums -> episode_numbers_of ep_items = nums.
Proof.
  revert nums. induction ep_items as [|item rest IH]; intros nums; cbn.
  - intros H. now injection H.
  - destruct (data_id item) as [d|]; [|apply IH].
    destruct (PyStr.nonempty d); [|apply IH].
    destruct (PyStr.int d) as [n|]; [|discriminate].
    destruct (episode_numbers_strict rest) as [ns|]; [|discriminate].
    cbn. intros H. injection H as <-. now rewrite (IH ns eq_refl).
Qed.

Lemma extract_single_episode_cases (env : Env) (url : string) :
  fst (extract_single_episode env url tt) = Ret (None, None) \/
  exists n, fst (extract_single_episode env url tt) = Ret (Some n, Some n).
Proof.
  unfold extract_single_episode, try_except, bind, request, json_html, or_raise, ret, raise.
  destruct (http_get env url) as [|st [| |[h|]]]; cbn; auto.
  - destruct (episode_numbers_strict (find_all_ep_items env h)) as [[|n [|n' ns]]|];
      cbn; eauto.
  - destruct (episode_numbers_strict (find_all_ep_items env EmptyString))
      as [[|n [|n' ns]]|]; cbn; eauto.
Qed.

(** X19.  The helper never raises and returns either no result or twice the same
    number.  It does not look at the status of the response.  When it
    returns a number for a response with status 200 (and the parser finds no
    item in empty markup), the thread-pool fetcher succeeds on that response
    with that number as first and last episode; the asynchronous fetcher
    does so as well when the response is declared as JSON, and fails when it
    is not, since its client refuses to decode such a body. *)
Theorem extract_single_episode_spec (env : Env) (url : string) :
  (fst (extract_single_episode env url tt) = Ret (None, None) \/
   exists n, fst (extract_single_episode env url tt) = Ret (Some n, Some n)) /\
  (forall env' status status' body,
      http_get env url = Reply status body ->
      http_get env' url = Reply status' body ->
      find_all_ep_items env' = find_all_ep_items env ->
      extract_single_episode env' url tt = extract_single_episode env url tt) /\
  (forall n body,
      fst (extract_single_episode env url tt) = Ret (Some n, Some n) ->
      http_get env url = Reply 200 body ->
      find_all_ep_items env EmptyString = [] ->
      exists nm,
        fst (process_single_url env url []) = Ret (Some (n, n, nm, url)) /\
        (json_content_type env url = true ->
         fst (AnimeExtractor.extract_episodes_and_name env url []) =
           Ret (Some n, Some n, nm)) /\
        (json_content_type env url = false ->
         AnimeExtractor.extract_episodes_and_name env url [] =
           (Ret AnimeExtractor.nothing, [url]))).
Proof.
  split; [apply extract_single_episode_cases|].
  unfold extract_single_episode, try_except, bind, request, json_html, or_raise, ret, raise.
  split.
  - intros env' st st' body H H' Hparse. rewrite H, H', Hparse. reflexivity.
  - intros n body Hres Hget Hempty.
    rewrite extract_episodes_and_name_spec, process_single_url_spec.
    unfold fetch_async, fetch_sync. rewrite Hget in *. cbn [Z.eqb Z.leb Z.ltb andb].
    change (200 =? 200) with true. change ((400 <=? 200) && (200 <? 600)) with false.
    cbv iota. unfold infer.
    destruct body as [| |[h|]]; cbn in Hres; try discriminate.
    + destruct (episode_numbers_strict (find_all_ep_items env h)) as [nums|] eqn:Hstrict;
        [|discriminate].
      destruct nums as [|k [|k' ks]]; cbn in Hres; try discriminate.
      injection Hres as ->.
      rewrite (episode_numbers_strict_agrees _ _ Hstrict).
      destruct (PyStr.nonempty h) eqn:Hne.
      * cbn. exists (anime_name_of (find_all_ep_items env h)).
        split; [reflexivity|].
        split; intros ->; reflexivity.
      * destruct h; [|discriminate]. rewrite Hempty in Hstrict. discriminate.
    + rewrite Hempty in Hres. discriminate.
Qed.

Lemma extract_single_episode_spec_witness :
  let env := demo_env 200 markup_single items_single (OracleResults []) false no_delay in
  exists nm,
    fst (process_single_url env (listing_url 10) []) =
      Ret (Some (42, 42, nm, listing_url 10)) /\
    (json_content_type env (listing_url 10) = true ->
     fst (AnimeExtractor.extract_episodes_and_name env (listing_url 10) []) =
       Ret (Some 42, Some 42, nm)) /\
    (json_content_type env (listing_url 10) = false ->
     AnimeExtractor.extract_episodes_and_name env (listing_url 10) [] =
       (Ret AnimeExtractor.nothing, [listing_url 10])).
Proof.
  intros env.
  apply (proj2 (proj2 (extract_single_episode_spec env (listing_url 10)))
           42 (JsonObject (Some markup_single))).
  - reflexivity.
  - reflexivity.
  - reflexivity.
Defined.

(** The helper reads a listing served as [text/html], which the
    asynchronous fetcher rejects. *)
Example helper_reads_mistyped_listing :
  fst (extract_single_episode mistyped_env (listing_url 10) tt) = Ret (Some 42, Some 42) /\
  AnimeExtractor.extract_episodes_and_name mistyped_env (listing_url 10) [] =
    (Ret AnimeExtractor.nothing, [listing_url 10]).
Proof. split; reflexivity. Qed.

(** X20.  The test prints its success line exactly when the helper found one
    episode whose number is not zero: episode 0 is falsy and goes
    unreported. *)
Theorem test_single_episode_reports (env : Env) :
  test_single_episode env = true <->
  exists n, n <> 0 /\
            fst (extract_single_episode env (listing_url 10) tt) = Ret (Some n, Some n).
Proof.
  unfold test_single_episode.
  destruct (extract_single_episode_cases env (listing_url 10)) as [H|(n & H)];
    rewrite H; cbn.
  - split; [discriminate|]. intros (n & _ & Hn). discriminate.
  - destruct (Z.eqb_spec n 0) as [->|Hne]; cbn; split.
    + discriminate.
    + intros (k & Hk & Heq). injection Heq as <-. contradiction.
    + intros _. eauto.
    + reflexivity.
Qed.

(** ** the entry points *)





(** ** the two pipelines on one URL *)

Lemma fetch_async_sync (env : Env) (url : string) (f l : Z) (nm : option string) :
  fetch_async env url = Some (f, l, nm) -> fetch_sync env url = Some (f, l, nm).
Proof.
  unfold fetch_async, fetch_sync.
  destruct (http_get env url) as [|st body]; [discriminate|].
  destruct (Z.eqb_spec st 200) as [->|]; [|discriminate].
  destruct (json_content_type env url); [trivial|discriminate].
Qed.

(** X23.  Whenever the asynchronous pipeline, run on a single URL, emits a
    record, the thread-pool pipeline run on that URL with the same key
    emits the very same record and leaves [error_urls] in the same state. *)
Theorem thread_pool_emits_what_async_emits (env : Env) (self : AnimeExtractor.Self)
    (url : string) (errs : list string) (r : SeriesRecord) (errs' : list string) :
  AnimeExtractor.process_urls_async env self [url] errs = (Ret [r], errs') ->
  fast_sync_version env (AnimeExtractor.api_key self) [url] errs = (Ret [r], errs').
Proof.
  intros Hrun.
  destruct (Z.ltb_spec 0 (AnimeExtractor.max_workers self)) as [Hpos|Hle].
  - rewrite process_urls_async_spec in Hrun by assumption.
    rewrite (async_arrivals_single env self url Hpos) in Hrun.
    cbn [omap filter] in Hrun.
    destruct (async_emit env self url) as [p|] eqn:Hemit; [|discriminate].
    rewrite (async_emit_not_failed env self url) in Hrun by (rewrite Hemit; discriminate).
    injection Hrun as <- <-.
    destruct (async_emit_inv _ _ _ _ Hemit) as (f & l & nm & m & -> & Hf & _ & _ & _ & Hsub).
    rewrite fast_sync_version_spec. cbv zeta. rewrite schedule_single.
    cbn [omap filter].
    unfold sync_failed, sync_task. rewrite (fetch_async_sync _ _ _ _ _ Hf).
    change (get_tmdb_info_sync env (Some nm) (AnimeExtractor.api_key self))
      with (AnimeExtractor.get_tmdb_info_sync env self (Some nm)).
    rewrite Hsub. reflexivity.
  - destruct (Z.eqb_spec (AnimeExtractor.max_workers self) 0) as [H0|Hne].
    + rewrite (process_urls_async_zero env self [url] errs H0) in Hrun. discriminate.
    + rewrite (process_urls_async_negative env self [url] errs) in Hrun by lia.
      discriminate.
Qed.

Lemma thread_pool_emits_what_async_emits_witness :
  let env := demo_env 200 markup_three items_three (OracleResults []) false no_delay in
  let r := entry_of 0 (3, 7, Some "some-show?", degraded "some show?") in
  fast_sync_version env (AnimeExtractor.api_key demo_self) [listing_url 1] [] = (Ret [r], []).
Proof.
  intros env r.
  apply (thread_pool_emits_what_async_emits env demo_self (listing_url 1) [] r []).
  reflexivity.
Defined.

(** ** the thread-pool run accounts for every URL *)

(** X24.  After a thread-pool run the number of records plus the number of URLs
    added to [error_urls] equals the number of submitted URLs: each URL
    ends in exactly one of the two. *)
Theorem sync_every_url_accounted (env : Env) (key : string)
    (urls errs : list string) (records : list SeriesRecord) (errs' : list string) :
  fast_sync_version env key urls errs = (Ret records, errs') ->
  exists failed,
    errs' = errs ++ failed /\
    (List.length records + List.length failed = List.length urls)%nat.
Proof. apply fast_sync_accounts_for_every_url. Qed.

Lemma sync_every_url_accounted_witness :
  let env := demo_env 200 markup_single items_single (OracleResults []) true no_delay in
  exists failed : list string,
    [listing_url 1] = [] ++ failed /\
    (List.length (@nil SeriesRecord) + List.length failed = List.length [listing_url 1])%nat.
Proof.
  intros env.
  apply (sync_every_url_accounted env "key" [listing_url 1] [] [] [listing_url 1]).
  reflexivity.
Defined.
